(** * mdtree: the ignore-rule resolver and tree builder of [treebuilder.py]

    A shallow embedding of [src/mdtree/treebuilder.py] (and of the older
    [validate_and_convert_path] kept in [src/mdtree/__main__.py]).

    Modelling conventions.
    - A Python [str] is a [string]; names and file contents are byte
      strings, so case folding and white space are the ASCII ones.
    - A [pathlib.Path] below the resolved root is the list of its
      components, innermost first: [p.parent] is the tail, [p.name] the
      head, and the root itself is [[]].
    - The directory tree is read-only during a run and is given as a
      [node]; [iterdir] lists a directory in the order the tree stores its
      entries (the order of the operating system).
    - [pathspec] is an external library: compiling one gitwildmatch line is
      the section variable [from_lines], whose result is the [match_file]
      predicate of the compiled spec.
    - [os.environ] is a finite map and [print] appends to a list of lines
      (the standard output), returned next to the result.
    - A raised exception is the outcome [Raise]. The [while stack] loop
      and the recursion of [rec] take a fuel argument, the number of
      nodes of the tree; [OutOfFuel] is shown to be unreachable on every
      tree whose directories hold distinct names. *)

From Stdlib Require Import ZArith Lia Ascii Sorted.
From stdpp Require Import base gmap sets list strings.

Local Open Scope Z_scope.
Local Set Warnings "-register-all".

(** ** Python string operations *)

Module PyStr.

(** [s.startswith(pre)] *)
Definition startswith (pre s : string) : bool := String.prefix pre s.

(** [s.endswith(suf)] *)
Fixpoint endswith (suf s : string) : bool :=
  String.eqb suf s
  || match s with
     | EmptyString => false
     | String _ s' => endswith suf s'
     end.

(** [s.rstrip(c)] for a one-character set [c] *)
Fixpoint rstrip (c : ascii) (s : string) : string :=
  match s with
  | EmptyString => EmptyString
  | String a s' =>
      match rstrip c s' with
      | EmptyString => if Ascii.eqb a c then EmptyString else String a EmptyString
      | r => String a r
      end
  end.

(** [s[1:]] *)
Definition drop1 (s : string) : string :=
  match s with
  | EmptyString => EmptyString
  | String _ s' => s'
  end.

Definition is_upper (c : ascii) : bool :=
  let n := Ascii.nat_of_ascii c in (65 <=? n)%nat && (n <=? 90)%nat.

Definition lower_char (c : ascii) : ascii :=
  if is_upper c then Ascii.ascii_of_nat (Ascii.nat_of_ascii c + 32) else c.

(** [s.lower()] *)
Fixpoint lower (s : string) : string :=
  match s with
  | EmptyString => EmptyString
  | String c s' => String (lower_char c) (lower s')
  end.

(** White space of [str.strip()]: HT, LF, VT, FF, CR, FS, GS, RS, US, SP. *)
Definition is_space (c : ascii) : bool :=
  let n := Ascii.nat_of_ascii c in
  ((9 <=? n)%nat && (n <=? 13)%nat) || ((28 <=? n)%nat && (n <=? 32)%nat).

Fixpoint lstrip (s : string) : string :=
  match s with
  | EmptyString => EmptyString
  | String c s' => if is_space c then lstrip s' else s
  end.

Fixpoint rstrip_space (s : string) : string :=
  match s with
  | EmptyString => EmptyString
  | String a s' =>
      match rstrip_space s' with
      | EmptyString => if is_space a then EmptyString else String a EmptyString
      | r => String a r
      end
  end.

(** [s.strip()] *)
Definition strip (s : string) : string := rstrip_space (lstrip s).

(** Line boundaries of [str.splitlines()]: LF, VT, FF, CR, FS, GS, RS
    (and CR LF as one). *)
Definition is_linebreak (c : ascii) : bool :=
  let n := Ascii.nat_of_ascii c in
  ((10 <=? n)%nat && (n <=? 13)%nat) || ((28 <=? n)%nat && (n <=? 30)%nat).

Definition is_cr (c : ascii) : bool := (Ascii.nat_of_ascii c =? 13)%nat.
Definition is_lf (c : ascii) : bool := (Ascii.nat_of_ascii c =? 10)%nat.

(** [s.splitlines()] *)
Fixpoint splitlines (s : string) : list string :=
  match s with
  | EmptyString => []
  | String c s' =>
      if is_linebreak c then
        match s' with
        | String d s'' =>
            if is_cr c && is_lf d then EmptyString :: splitlines s''
            else EmptyString :: splitlines s'
        | EmptyString => [EmptyString]
        end
      else
        match splitlines s' with
        | [] => [String c EmptyString]
        | l :: ls => String c l :: ls
        end
  end.

Definition newline : string := String (Ascii.ascii_of_nat 10) EmptyString.

End PyStr.

(** ** Exceptions and outcomes *)

Inductive exn : Type :=
  | ValueError (msg : string)
  | FileNotFoundError
  | NotADirectoryError
  | IsADirectoryError
  | PatternError (pattern : string).

Inductive outcome (A : Type) : Type :=
  | Ok (a : A)
  | Raise (e : exn)
  | OutOfFuel.

Arguments Ok {A} a.
Arguments Raise {A} e.
Arguments OutOfFuel {A}.

Definition bind {A B : Type} (m : outcome A) (k : A -> outcome B) : outcome B :=
  match m with
  | Ok a => k a
  | Raise e => Raise e
  | OutOfFuel => OutOfFuel
  end.

Notation "'let*' x ':=' m 'in' k" := (bind m (fun x => k))
  (at level 10, x name, m at level 100, k at level 200).

(** ** The directory tree *)

Inductive node : Type :=
  | File (content : string)
  | Dir (entries : list (string * node)).

Record filesystem : Type := {
  root_name : string;   (* [root_path.name] of the resolved root *)
  root_node : node
}.

(** A path below the root: its components, innermost first. *)
Definition Path : Type := list string.

Definition root_path : Path := [].

Fixpoint find_entry (name : string) (es : list (string * node)) : option node :=
  match es with
  | [] => None
  | (n, x) :: es' => if String.eqb n name then Some x else find_entry name es'
  end.

Fixpoint resolve_down (n : node) (comps : list string) : option node :=
  match comps with
  | [] => Some n
  | c :: cs =>
      match n with
      | Dir es =>
          match find_entry c es with
          | Some x => resolve_down x cs
          | None => None
          end
      | File _ => None
      end
  end.

Definition lookup_path (fs : filesystem) (p : Path) : option node :=
  resolve_down (root_node fs) (rev p).

(** [p.exists()] *)
Definition path_exists (fs : filesystem) (p : Path) : bool :=
  match lookup_path fs p with Some _ => true | None => false end.

(** [p.is_dir()] *)
Definition is_dir (fs : filesystem) (p : Path) : bool :=
  match lookup_path fs p with Some (Dir _) => true | _ => false end.

(** [p.iterdir()], as a list *)
Definition iterdir (fs : filesystem) (p : Path) : outcome (list Path) :=
  match lookup_path fs p with
  | Some (Dir es) => Ok (map (fun e => fst e :: p) es)
  | Some (File _) => Raise NotADirectoryError
  | None => Raise FileNotFoundError
  end.

(** [p.name] *)
Definition name (fs : filesystem) (p : Path) : string :=
  match p with
  | [] => root_name fs
  | n :: _ => n
  end.

(** [p.parent], for a path below the root *)
Definition parent (p : Path) : Path := tail p.

(** [p.relative_to(root_path).as_posix()] *)
Definition as_posix_rel (p : Path) : string :=
  match p with
  | [] => "."
  | _ => String.concat "/" (rev p)
  end.

(** ** Rules, traversal, resolution and rendering *)

(** The [match_file] predicate of a compiled one-line [PathSpec]. *)
Definition PathSpec : Type := string -> bool.

(** A compiled rule: [(is_negation, spec, original_pattern)]. *)
Definition rule : Type := bool * PathSpec * string.

(** One entry of [hits]: [(pattern, rel, effect)]. *)
Definition hit : Type := string * string * string.

Section Treebuilder.

(** [pathspec.PathSpec.from_lines("gitwildmatch", [core])]: the compiled
    spec, or the exception the library raises on a malformed line. *)
Variable from_lines : string -> outcome PathSpec.

(** Python's [repr] on [str] (the [!r] conversion of an f-string). *)
Variable repr : string -> string.

(** [_read_gitignore_lines] *)
Definition _read_gitignore_lines (fs : filesystem) : outcome (list string) :=
  let gi : Path := [".gitignore"] in
  match lookup_path fs gi with
  | None => Ok []
  | Some (Dir _) => Raise IsADirectoryError
  | Some (File text) =>
      Ok (List.filter
            (fun line => negb (String.eqb line "" || PyStr.startswith "#" line))
            (map PyStr.strip (PyStr.splitlines text)))
  end.

(** [_compile_gitignore_rules] *)
Fixpoint _compile_gitignore_rules (patterns : list string) : outcome (list rule) :=
  match patterns with
  | [] => Ok []
  | pat :: rest =>
      let is_neg := PyStr.startswith "!" pat in
      let core := if is_neg then PyStr.drop1 pat else pat in
      if String.eqb core "" then _compile_gitignore_rules rest
      else
        let* spec := from_lines core in
        let* rules := _compile_gitignore_rules rest in
        Ok ((is_neg, spec, pat) :: rules)
  end.

(** [_rel_for_match] *)
Definition _rel_for_match (fs : filesystem) (p : Path) : list string :=
  let rel := as_posix_rel p in
  if is_dir fs p then
    [rel;
     if negb (String.eqb rel "") && negb (PyStr.endswith "/" rel)
     then rel +:+ "/" else rel]
  else [rel].

(** The sort key [(not x.is_dir(), x.name.lower())] and its order. *)
Definition sort_key (fs : filesystem) (x : Path) : bool * string :=
  (negb (is_dir fs x), PyStr.lower (name fs x)).

Definition key_le (a b : bool * string) : bool :=
  if Bool.eqb (fst a) (fst b) then String.leb (snd a) (snd b)
  else negb (fst a).

Fixpoint insert_by_key (fs : filesystem) (x : Path) (l : list Path) : list Path :=
  match l with
  | [] => [x]
  | y :: l' =>
      if key_le (sort_key fs x) (sort_key fs y) then x :: y :: l'
      else y :: insert_by_key fs x l'
  end.

(** [sorted(l, key=...)]: the stable sort (an element goes before the
    later elements with an equal key). *)
Fixpoint sorted (fs : filesystem) (l : list Path) : list Path :=
  match l with
  | [] => []
  | x :: l' => insert_by_key fs x (sorted fs l')
  end.

(** [max_depth is not None and depth >= max_depth] *)
Definition depth_reached (max_depth : option Z) (depth : Z) : bool :=
  match max_depth with
  | None => false
  | Some m => m <=? depth
  end.

(** Step 3, the [while stack] loop. The head of [stack] is the end of
    the Python list, the element [stack.pop()] returns. *)
Fixpoint walk (fs : filesystem) (max_depth : option Z) (fuel : nat)
    (stack : list (Path * Z)) (all_paths : list Path) : outcome (list Path) :=
  match stack with
  | [] => Ok all_paths
  | (cur, depth) :: stack' =>
      match fuel with
      | O => OutOfFuel
      | S fuel' =>
          if depth_reached max_depth depth then
            walk fs max_depth fuel' stack' all_paths
          else
            let* kids := iterdir fs cur in
            let chs := sorted fs kids in
            let pushed := map (fun ch => (ch, depth + 1)) (List.filter (is_dir fs) chs) in
            walk fs max_depth fuel' (rev pushed ++ stack') (all_paths ++ chs)
      end
  end.

(** The number of nodes of a tree, the fuel handed to [walk] and [rec]. *)
Fixpoint node_size (n : node) : nat :=
  match n with
  | File _ => 1
  | Dir es =>
      S ((fix sizes (l : list (string * node)) : nat :=
            match l with
            | [] => O
            | e :: l' => (node_size (snd e) + sizes l')%nat
            end) es)
  end.

(** One rule of the [for is_neg, spec, _pat in rules] loop of
    [is_ignored], on the pair [(state_ignore, hits)]. *)
Definition rule_step (p_is_dir : bool) (rel : string)
    (acc : bool * list hit) (r : rule) : bool * list hit :=
  let '(is_neg, spec, _pat) := r in
  let core := if PyStr.startswith "!" _pat then PyStr.drop1 _pat else _pat in
  if PyStr.endswith "/" core then
    let dir_pat := PyStr.rstrip "/" core in
    if negb is_neg then
      if String.eqb rel dir_pat || PyStr.startswith (dir_pat +:+ "/") rel
      then (true, snd acc ++ [(_pat, rel, "EXCLUDE (dir and descendants)")])
      else acc
    else
      if p_is_dir && String.eqb rel dir_pat
      then (false, snd acc ++ [(_pat, rel, "INCLUDE (unignore dir)")])
      else acc
  else
    if spec rel
    then (negb is_neg,
          snd acc ++ [(_pat, rel, if negb is_neg then "EXCLUDE" else "INCLUDE (unignore)")])
    else acc.

(** The trace [is_ignored] prints when [DEBUG] is set. *)
Definition debug_lines (fs : filesystem) (p : Path)
    (state_ignore : bool) (hits : list hit) : list string :=
  let kind := if is_dir fs p then "DIR " else "FILE" in
  let shown := if String.eqb (as_posix_rel p) "" then "." else as_posix_rel p in
  ("[" +:+ kind +:+ "] " +:+ shown)
  :: match hits with
     | [] => ["   -> no match"]
     | _ =>
         map (fun h : hit =>
                let '(pat, rel, eff) := h in
                "   -> match: " +:+ repr pat +:+ " on " +:+ repr rel +:+ " => " +:+ eff)
             hits
         ++ ["   => FINAL: " +:+ (if state_ignore then "IGNORED" else "INCLUDED")]
     end.

(** [is_ignored]: the returned [state_ignore] and the lines printed. *)
Definition is_ignored (fs : filesystem) (rules : list rule) (DEBUG : bool)
    (p : Path) : bool * list string :=
  let rel := as_posix_rel p in
  let '(state_ignore, hits) :=
    fold_left (rule_step (is_dir fs p) rel) rules (false, []) in
  (state_ignore, if DEBUG then debug_lines fs p state_ignore hits else []).

(** Step 4, the [for p in all_paths] loop: the set [included] and the
    lines printed so far. *)
Definition resolve_step (fs : filesystem) (rules : list rule) (DEBUG : bool)
    (acc : gset Path * list string) (p : Path) : gset Path * list string :=
  if decide (p = root_path) then ({[p]} ∪ fst acc, snd acc)
  else
    let '(ignored, printed) := is_ignored fs rules DEBUG p in
    if negb ignored then ({[p]} ∪ fst acc, snd acc ++ printed)
    else (fst acc, snd acc ++ printed).

Definition resolve_paths (fs : filesystem) (rules : list rule) (DEBUG : bool)
    (all_paths : list Path) : gset Path * list string :=
  fold_left (resolve_step fs rules DEBUG) all_paths (∅, []).

(** Step 5, the inner [while cur != root_path] loop. *)
Fixpoint add_parents (cur : Path) (included : gset Path) : gset Path :=
  match cur with
  | [] => included
  | _ :: up => add_parents up ({[up]} ∪ included)
  end.

(** Step 5, [for p in list(included)]. *)
Definition reconcile (included : gset Path) : gset Path :=
  fold_left (fun inc p => add_parents p inc) (elements included) included.

(** [list_children] *)
Definition list_children (fs : filesystem) (included : gset Path) (path : Path)
    : outcome (list Path) :=
  let* kids := iterdir fs path in
  Ok (List.filter (fun c => bool_decide (c ∈ included)) (sorted fs kids)).

Definition ends (is_last : bool) : string := if is_last then "└── " else "├── ".
Definition extents (is_last : bool) : string := if is_last then "     " else "│    ".

(** The [for i, ch in enumerate(kids)] loop of [rec]; [descend ch prefix]
    is the recursive call [rec(ch, prefix, depth + 1)] and [n_kids] is
    [len(kids)]. *)
Fixpoint rec_loop (fs : filesystem) (descend : Path -> string -> outcome (list string))
    (prefix : string) (n_kids : nat) (i : Z) (l : list Path) : outcome (list string) :=
  match l with
  | [] => Ok []
  | ch :: l' =>
      let is_last := i =? Z.of_nat n_kids - 1 in
      let line := prefix +:+ ends is_last +:+ name fs ch in
      let* below :=
        (if is_dir fs ch then descend ch (prefix +:+ extents is_last) else Ok []) in
      let* rest := rec_loop fs descend prefix n_kids (i + 1) l' in
      Ok (line :: below ++ rest)
  end.

(** [rec]: the lines it appends to [lines], in order. *)
Fixpoint rec (fs : filesystem) (max_depth : option Z) (included : gset Path)
    (fuel : nat) (path : Path) (prefix : string) (depth : Z) : outcome (list string) :=
  if depth_reached max_depth depth then Ok []
  else
    match fuel with
    | O => OutOfFuel
    | S fuel' =>
        let* kids := list_children fs included path in
        rec_loop fs
          (fun ch pre => rec fs max_depth included fuel' ch pre (depth + 1))
          prefix (length kids) 0 kids
    end.

(** Step 1 of [build_structure_tree]: the pattern list, in order. *)
Definition build_patterns (fs : filesystem) (ignore_list : option (list string))
    (apply_gitignore exclude_git : bool) : outcome (list string) :=
  let* from_file := (if apply_gitignore then _read_gitignore_lines fs else Ok []) in
  Ok (from_file
      ++ match ignore_list with Some l => l | None => [] end
      ++ (if exclude_git then [".git/"] else [])).

(** [os.environ.get("MDTREE_DEBUG") == "1"] *)
Definition debug_enabled (environ : gmap string string) : bool :=
  bool_decide (environ !! "MDTREE_DEBUG" = Some "1").

(** Steps 1 to 5 of [build_structure_tree]: the final set [included]
    and the lines printed. *)
Definition included_set (fs : filesystem) (max_depth : option Z)
    (ignore_list : option (list string)) (apply_gitignore exclude_git : bool)
    (environ : gmap string string) : outcome (gset Path * list string) :=
  let* patterns := build_patterns fs ignore_list apply_gitignore exclude_git in
  let* rules := _compile_gitignore_rules patterns in
  let* all_paths :=
    walk fs max_depth (node_size (root_node fs)) [(root_path, 0)] [root_path] in
  let DEBUG := debug_enabled environ in
  let r := resolve_paths fs rules DEBUG all_paths in
  Ok (reconcile (fst r), snd r).

(** [build_structure_tree]: the returned string and the lines printed.
    [fs] is the tree below [root_path.resolve()] and [environ] is
    [os.environ]. *)
Definition build_structure_tree (fs : filesystem) (max_depth : option Z)
    (ignore_list : option (list string)) (apply_gitignore exclude_git : bool)
    (environ : gmap string string) : outcome (string * list string) :=
  let* inc := included_set fs max_depth ignore_list apply_gitignore exclude_git environ in
  let* lines :=
    rec fs max_depth (fst inc) (node_size (root_node fs)) root_path "" 0 in
  Ok (String.concat PyStr.newline (root_name fs :: lines), snd inc).

End Treebuilder.

(** ** Root validation *)

(** What [validate_and_convert_path] can be handed: a [str], a [Path], or
    an object of another type (with the text of [type(s)]). *)
Inductive pyobj (OsPath : Type) : Type :=
  | PyString (s : string)
  | PyPath (p : OsPath)
  | PyOther (type_text : string).

Arguments PyString {OsPath} s.
Arguments PyPath {OsPath} p.
Arguments PyOther {OsPath} type_text.

Section Validation.

(** [pathlib.Path] values and the operations the function uses:
    [Path(s)], [p.exists()] and [p.resolve()]. *)
Variable OsPath : Type.
Variable path_of_str : string -> OsPath.
Variable os_exists : OsPath -> bool.
Variable os_resolve : OsPath -> OsPath.

(** [isinstance(s, (str, Path))] *)
Definition is_str_or_path (s : pyobj OsPath) : bool :=
  match s with
  | PyString _ | PyPath _ => true
  | PyOther _ => false
  end.

(** [Path(s) if isinstance(s, str) else s], for a [str] or a [Path] *)
Definition to_path (s : pyobj OsPath) : option OsPath :=
  match s with
  | PyString x => Some (path_of_str x)
  | PyPath p => Some p
  | PyOther _ => None
  end.

(** [validate_and_convert_path] of [treebuilder.py] *)
Definition validate_and_convert_path (s : pyobj OsPath) : outcome OsPath :=
  match s with
  | PyOther t =>
      Raise (ValueError ("Invalid input type: " +:+ t +:+ ". Expected str or Path."))
  | PyString x =>
      let p := path_of_str x in
      if negb (os_exists p) then Raise (ValueError "input path does not exist.")
      else Ok (os_resolve p)
  | PyPath p =>
      if negb (os_exists p) then Raise (ValueError "input path does not exist.")
      else Ok (os_resolve p)
  end.

End Validation.

Arguments is_str_or_path {OsPath} s.
Arguments to_path {OsPath} path_of_str s.
Arguments validate_and_convert_path {OsPath} path_of_str os_exists os_resolve s.

Module Main.

(** [validate_and_convert_path] of [__main__.py]: the same checks, but
    the path is returned as it is. *)
Definition validate_and_convert_path {OsPath : Type}
    (path_of_str : string -> OsPath) (os_exists : OsPath -> bool)
    (s : pyobj OsPath) : outcome OsPath :=
  match s with
  | PyOther t =>
      Raise (ValueError ("Invalid input type: " +:+ t +:+ ". Expected str or Path."))
  | PyString x =>
      let p := path_of_str x in
      if negb (os_exists p) then Raise (ValueError "input path does not exist.")
      else Ok p
  | PyPath p =>
      if negb (os_exists p) then Raise (ValueError "input path does not exist.")
      else Ok p
  end.

(** [path.glob("*")], as a list: the entries of a directory, hidden ones
    included, and nothing for anything that is not a directory. *)
Definition glob_star (fs : filesystem) (path : Path) : list Path :=
  match lookup_path fs path with
  | Some (Dir es) => map (fun e => fst e :: path) es
  | _ => []
  end.

Fixpoint insert_by_name (fs : filesystem) (x : Path) (l : list Path) : list Path :=
  match l with
  | [] => [x]
  | y :: l' =>
      if String.leb (name fs x) (name fs y) then x :: y :: l'
      else y :: insert_by_name fs x l'
  end.

(** [sorted(children)]: siblings compare by their last component. *)
Fixpoint sorted_paths (fs : filesystem) (l : list Path) : list Path :=
  match l with
  | [] => []
  | x :: l' => insert_by_name fs x (sorted_paths fs l')
  end.

Definition extentions (is_last : bool) : string := if is_last then "    " else "|    ".

(** [max_depth is not None and depth > max_depth] *)
Definition depth_exceeded (max_depth : option Z) (depth : Z) : bool :=
  match max_depth with
  | None => false
  | Some m => m <? depth
  end.

(** The [for i, child in enumerate(children)] loop of
    [search_directories]. *)
Fixpoint search_loop (fs : filesystem)
    (descend : Path -> string -> outcome (list string))
    (prefix : string) (n_children : nat) (i : Z) (l : list Path) : outcome (list string) :=
  match l with
  | [] => Ok []
  | child :: l' =>
      let is_last := i + 1 =? Z.of_nat n_children in
      let line := prefix +:+ ends is_last +:+ name fs child in
      let* below :=
        (if is_dir fs child then descend child (prefix +:+ extentions is_last)
         else Ok []) in
      let* rest := search_loop fs descend prefix n_children (i + 1) l' in
      Ok (line :: below ++ rest)
  end.

(** [search_directories]: the lines it appends to [res_list]. *)
Fixpoint search_directories (fs : filesystem) (max_depth : option Z) (fuel : nat)
    (path : Path) (prefix : string) (depth : Z) : outcome (list string) :=
  let depth := depth + 1 in
  if depth_exceeded max_depth depth then Ok []
  else
    match fuel with
    | O => OutOfFuel
    | S fuel' =>
        let children := sorted_paths fs (glob_star fs path) in
        search_loop fs
          (fun child pre => search_directories fs max_depth fuel' child pre depth)
          prefix (length children) 0 children
    end.

(** [build_structure_tree] of [__main__.py]; [root_str] is
    [str(root_path)]. *)
Definition build_structure_tree (fs : filesystem) (root_str : string)
    (max_depth : option Z) : outcome string :=
  let* lines :=
    search_directories fs max_depth (node_size (root_node fs)) root_path "" 0 in
  Ok (String.concat PyStr.newline (root_str :: lines)).

End Main.

(** ** Concrete instances used to run the model *)

(** A matcher for a fragment of gitwildmatch, enough to run the examples.
    A line without [/] is a glob ([*], [?], literals) tried on every
    component of the path. A line with [/] is anchored at the root (a
    leading [/] only anchors): its segments are globs matched against
    the leading components of the path, which may go on below them; a
    last segment [**] asks for at least one more component. Lines ending
    in [/] never reach the matcher, [is_ignored] handles them itself. *)
Module Wildmatch.

Definition is_slash (c : ascii) : bool := Ascii.eqb c "/".

Fixpoint glob (pat : string) : string -> bool :=
  match pat with
  | EmptyString => fun t => String.eqb t ""
  | String a pat' =>
      if Ascii.eqb a "*" then
        fix star (t : string) : bool :=
          glob pat' t
          || match t with
             | EmptyString => false
             | String c t' => negb (is_slash c) && star t'
             end
      else
        fun t =>
          match t with
          | EmptyString => false
          | String c t' =>
              (if Ascii.eqb a "?" then negb (is_slash c) else Ascii.eqb a c)
              && glob pat' t'
          end
  end.

Fixpoint split_slash (s : string) : list string :=
  match s with
  | EmptyString => [EmptyString]
  | String c s' =>
      if is_slash c then EmptyString :: split_slash s'
      else
        match split_slash s' with
        | [] => [String c EmptyString]
        | x :: xs => String c x :: xs
        end
  end.

Fixpoint match_segs (pats comps : list string) : bool :=
  match pats, comps with
  | [], _ => true
  | _ :: _, [] => false
  | p :: ps, c :: cs =>
      match ps with
      | [] => String.eqb p "**" || glob p c
      | _ :: _ => glob p c && match_segs ps cs
      end
  end.

Definition match_file (core rel : string) : bool :=
  match split_slash core with
  | [seg] =>
      List.existsb (fun c => negb (String.eqb c "") && glob seg c) (split_slash rel)
  | first :: segs =>
      if String.eqb first "" then match_segs segs (split_slash rel)
      else match_segs (first :: segs) (split_slash rel)
  | [] => false
  end.

Definition from_lines (core : string) : outcome PathSpec := Ok (match_file core).

Definition repr (s : string) : string := "'" +:+ s +:+ "'".

End Wildmatch.

(** A matcher library that rejects the one line [bad]. *)
Definition reject_line (bad core : string) : outcome PathSpec :=
  if String.eqb core bad then Raise (PatternError core) else Wildmatch.from_lines core.

(** A small project tree. *)
Definition demo_fs : filesystem :=
  {| root_name := "proj";
     root_node :=
       Dir [ ("debug.log", File "");
             (".git", Dir [("HEAD", File "ref")]);
             ("src", Dir [("main.py", File ""); ("pkg", Dir [("mod.py", File "")])]);
             ("build", Dir [("out.o", File ""); ("keep", Dir [("a.txt", File "")])]);
             ("important.log", File "");
             ("foo", File "") ] |}.

(** A tree in which [build] is a regular file. *)
Definition file_build_fs : filesystem :=
  {| root_name := "proj";
     root_node := Dir [("build", File ""); ("README.md", File "")] |}.

(** A tree whose [.gitignore] holds a comment, a blank line, a padded
    pattern and a negation. *)
Definition gitignore_fs : filesystem :=
  {| root_name := "proj";
     root_node :=
       Dir [ (".gitignore",
              File ("# build output" +:+ PyStr.newline +:+ PyStr.newline
                    +:+ "  *.log  " +:+ PyStr.newline
                    +:+ "!important.log" +:+ PyStr.newline));
             ("debug.log", File "");
             ("important.log", File "") ] |}.

(** A root that is a regular file. *)
Definition file_root_fs : filesystem :=
  {| root_name := "notes.txt"; root_node := File "" |}.

(** An environment with the diagnostic switch on. *)
Definition debug_on : gmap string string := {["MDTREE_DEBUG" := "1"]}.

(** A toy operating-system view for [validate_and_convert_path]: paths are
    strings, the working directory is [/work], and only [.] and [/work]
    exist. *)
Definition toy_exists (p : string) : bool := String.eqb p "." || String.eqb p "/work".
Definition toy_resolve (p : string) : string := if String.eqb p "." then "/work" else p.

(** ** Derived notions used to state the properties *)

(** The returned value of a run, forgetting what it printed. *)
Definition returned {A B : Type} (o : outcome (A * B)) : outcome A :=
  match o with
  | Ok r => Ok (fst r)
  | Raise e => Raise e
  | OutOfFuel => OutOfFuel
  end.

(** The condition under which a rule of [is_ignored] assigns
    [state_ignore] for a candidate: the three guarded branches of the
    loop body, read off the code. *)
Definition rule_hits (p_is_dir : bool) (rel : string) (r : rule) : bool :=
  let '(is_neg, spec, _pat) := r in
  let core := if PyStr.startswith "!" _pat then PyStr.drop1 _pat else _pat in
  if PyStr.endswith "/" core then
    if negb is_neg
    then String.eqb rel (PyStr.rstrip "/" core)
         || PyStr.startswith (PyStr.rstrip "/" core +:+ "/") rel
    else p_is_dir && String.eqb rel (PyStr.rstrip "/" core)
  else spec rel.

Definition rule_is_neg (r : rule) : bool := fst (fst r).

(** [q] is a strict ancestor of [p] (the root is [[]]). *)
Definition strict_ancestor (q p : Path) : Prop :=
  exists k : list string, k <> [] /\ p = k ++ q.

(** Following the spec's words (section 3, Candidate Path): a resolver
    that tests each rule against every form [_rel_for_match] returns for
    the candidate. The verdict only, without the trace. *)
Definition rule_step_two_forms (forms : list string) (p_is_dir : bool)
    (state_ignore : bool) (r : rule) : bool :=
  let '(is_neg, spec, _pat) := r in
  let core := if PyStr.startswith "!" _pat then PyStr.drop1 _pat else _pat in
  if PyStr.endswith "/" core then
    let dir_pat := PyStr.rstrip "/" core in
    if negb is_neg then
      if List.existsb
           (fun f => String.eqb (PyStr.rstrip "/" f) dir_pat
                     || PyStr.startswith (dir_pat +:+ "/") f) forms
      then true else state_ignore
    else
      if p_is_dir && List.existsb (fun f => String.eqb (PyStr.rstrip "/" f) dir_pat) forms
      then false else state_ignore
  else
    if List.existsb spec forms then negb is_neg else state_ignore.

Definition is_ignored_two_forms (fs : filesystem) (rules : list rule) (p : Path) : bool :=
  fold_left (rule_step_two_forms (_rel_for_match fs p) (is_dir fs p)) rules false.

(** Two rules that differ at most in what their matchers answer on
    strings other than [rel]. *)
Definition agree_on (rel : string) (r1 r2 : rule) : Prop :=
  rule_is_neg r1 = rule_is_neg r2
  /\ snd r1 = snd r2
  /\ snd (fst r1) rel = snd (fst r2) rel.

(** The summed size of the entries of a directory:
    [node_size (Dir es) = S (entries_size es)]. *)
Fixpoint entries_size (es : list (string * node)) : nat :=
  match es with
  | [] => O
  | e :: es' => (node_size (snd e) + entries_size es')%nat
  end.

(** A tree as a file system holds it: the entries of a directory have
    distinct names, at every level. *)
Fixpoint wf_node (n : node) : Prop :=
  match n with
  | File _ => True
  | Dir es =>
      NoDup (map fst es)
      /\ (fix all (l : list (string * node)) : Prop :=
            match l with
            | [] => True
            | e :: l' => wf_node (snd e) /\ all l'
            end) es
  end.

(** The measure of the [while stack] loop: the size of the subtree a
    stacked path stands for. *)
Definition path_weight (fs : filesystem) (p : Path) : nat :=
  match lookup_path fs p with
  | Some n => node_size n
  | None => 1
  end.

Definition stack_weight (fs : filesystem) (stack : list (Path * Z)) : nat :=
  sum_list_with (fun item : Path * Z => path_weight fs (fst item)) stack.

(** The pattern without its leading [!]: [core] in
    [_compile_gitignore_rules] and in [is_ignored]. *)
Definition core_of (pat : string) : string :=
  if PyStr.startswith "!" pat then PyStr.drop1 pat else pat.

(** The lines [_compile_gitignore_rules] keeps: those whose core is not
    empty. *)
Definition has_core (pat : string) : bool := negb (String.eqb (core_of pat) "").

(** A path that lies within the depth bound. *)
Definition within_depth (max_depth : option Z) (p : Path) : Prop :=
  match max_depth with
  | None => True
  | Some m => Z.of_nat (length p) <= m
  end.

(** [p] is the entry [d] of the root, or lies below it. *)
Definition at_or_below (d : string) (p : Path) : Prop :=
  exists k : list string, p = k ++ [d].

(** [a] may stand before [b] among sorted siblings: its key is not
    greater. *)
Definition key_before (fs : filesystem) (a b : Path) : Prop :=
  key_le (sort_key fs a) (sort_key fs b) = true.

(** The entries the lines of [rec_loop] stand for, in the order of the
    lines. *)
Fixpoint rec_loop_entries (fs : filesystem) (descend : Path -> list Path)
    (l : list Path) : list Path :=
  match l with
  | [] => []
  | ch :: l' =>
      ch :: (if is_dir fs ch then descend ch else []) ++ rec_loop_entries fs descend l'
  end.

(** The entries the lines of [rec] stand for, in the order of the
    lines. *)
Fixpoint rec_entries (fs : filesystem) (max_depth : option Z) (included : gset Path)
    (fuel : nat) (path : Path) (depth : Z) : list Path :=
  if depth_reached max_depth depth then []
  else
    match fuel with
    | O => []
    | S fuel' =>
        match list_children fs included path with
        | Ok kids =>
            rec_loop_entries fs
              (fun ch => rec_entries fs max_depth included fuel' ch (depth + 1)) kids
        | _ => []
        end
    end.

(** A line of the tree that stands for the entry [p]: some indentation,
    a connector and the name of [p]. *)
Definition line_of (fs : filesystem) (line : string) (p : Path) : Prop :=
  exists (pre : string) (is_last : bool), line = pre +:+ ends is_last +:+ name fs p.

(** ** The resolver, rule by rule *)

Section Resolver.

Variable from_lines : string -> outcome PathSpec.
Variable repr : string -> string.

Abbreviation is_ignored := (is_ignored repr).
Abbreviation _compile_gitignore_rules := (_compile_gitignore_rules from_lines).

Lemma rule_step_verdict (d : bool) (rel : string) (acc : bool * list hit) (r : rule) :
  fst (rule_step d rel acc r)
  = if rule_hits d rel r then negb (rule_is_neg r) else fst acc.
Proof.
  destruct r as [[is_neg spec] pat]. unfold rule_step, rule_hits, rule_is_neg. simpl.
  destruct (PyStr.endswith "/" _).
  - destruct is_neg; simpl.
    + destruct (d && _); reflexivity.
    + destruct (_ || _); reflexivity.
  - destruct (spec rel); reflexivity.
Qed.

Lemma is_ignored_fst (fs : filesystem) (rules : list rule) (D : bool) (p : Path) :
  fst (is_ignored fs rules D p)
  = fst (fold_left (rule_step (is_dir fs p) (as_posix_rel p)) rules (false, [])).
Proof.
  unfold is_ignored. destruct (fold_left _ _ _) as [v h]. reflexivity.
Qed.

Lemma fold_rule_step_snoc (d : bool) (rel : string) (rules : list rule) (r : rule)
    (acc : bool * list hit) :
  fold_left (rule_step d rel) (rules ++ [r]) acc
  = rule_step d rel (fold_left (rule_step d rel) rules acc) r.
Proof. rewrite fold_left_app. reflexivity. Qed.

Lemma is_ignored_snoc (fs : filesystem) (rules : list rule) (r : rule) (D : bool) (p : Path) :
  fst (is_ignored fs (rules ++ [r]) D p)
  = if rule_hits (is_dir fs p) (as_posix_rel p) r
    then negb (rule_is_neg r)
    else fst (is_ignored fs rules D p).
Proof.
  rewrite !is_ignored_fst, fold_rule_step_snoc, rule_step_verdict. reflexivity.
Qed.

Lemma is_ignored_nil (fs : filesystem) (D : bool) (p : Path) :
  fst (is_ignored fs [] D p) = false.
Proof. reflexivity. Qed.

Lemma is_ignored_last_hit (fs : filesystem) (rules : list rule) (D : bool) (p : Path) :
  fst (is_ignored fs rules D p)
  = match List.find (rule_hits (is_dir fs p) (as_posix_rel p)) (rev rules) with
    | Some r => negb (rule_is_neg r)
    | None => false
    end.
Proof.
  induction rules as [|r rules IH] using rev_ind.
  - reflexivity.
  - rewrite is_ignored_snoc, rev_app_distr. simpl.
    destruct (rule_hits _ _ r); [reflexivity | exact IH].
Qed.

(** *** Facts about the string operations *)

Lemma prefix_empty (s : string) : String.prefix "" s = true.
Proof. destruct s; reflexivity. Qed.

Lemma startswith_bang (core : string) : PyStr.startswith "!" ("!" +:+ core) = true.
Proof. unfold PyStr.startswith. simpl. apply prefix_empty. Qed.

Lemma drop1_bang (core : string) : PyStr.drop1 ("!" +:+ core) = core.
Proof. reflexivity. Qed.

Lemma string_length_app (s t : string) :
  String.length (s +:+ t) = (String.length s + String.length t)%nat.
Proof. induction s as [|a s IH]; simpl; [reflexivity | now rewrite IH]. Qed.

Lemma rstrip_id (c : ascii) (s : string) :
  PyStr.endswith (String c "") s = false -> PyStr.rstrip c s = s.
Proof.
  induction s as [|a s IH]; [reflexivity |].
  simpl. intros H. apply orb_false_iff in H as [Hhead Htail].
  rewrite (IH Htail). destruct s as [|b s]; [|reflexivity].
  simpl in Hhead. destruct (Ascii.eqb_spec c a) as [->|Hne].
  - discriminate Hhead.
  - destruct (Ascii.eqb_spec a c) as [->|_]; [contradiction | reflexivity].
Qed.

Lemma rstrip_app_char (c : ascii) (s : string) :
  PyStr.rstrip c (s +:+ String c "") = PyStr.rstrip c s.
Proof.
  induction s as [|a s IH].
  - simpl. now rewrite Ascii.eqb_refl.
  - simpl. now rewrite IH.
Qed.

Lemma concat_app_length (sep : string) (a b : list string) :
  a <> [] -> b <> [] ->
  String.length (String.concat sep (a ++ b))
  = (String.length (String.concat sep a) + String.length sep
     + String.length (String.concat sep b))%nat.
Proof.
  intros Ha Hb. induction a as [|x a IH]; [contradiction |].
  destruct a as [|y a].
  - destruct b as [|z b]; [contradiction |].
    change (String.concat sep ([x] ++ z :: b))
      with (x +:+ sep +:+ String.concat sep (z :: b)).
    change (String.concat sep [x]) with x.
    rewrite !string_length_app. lia.
  - change (String.concat sep ((x :: y :: a) ++ b))
      with (x +:+ sep +:+ String.concat sep ((y :: a) ++ b)).
    change (String.concat sep (x :: y :: a))
      with (x +:+ sep +:+ String.concat sep (y :: a)).
    rewrite !string_length_app, IH by discriminate. lia.
Qed.

Lemma descendant_rel_differs (d k : Path) :
  d <> [] -> k <> [] -> as_posix_rel (k ++ d) <> as_posix_rel d.
Proof.
  intros Hd Hk Heq.
  assert (Hlen : String.length (as_posix_rel (k ++ d)) = String.length (as_posix_rel d))
    by now rewrite Heq.
  unfold as_posix_rel in Hlen.
  destruct (k ++ d) as [|x l] eqn:Hkd.
  { apply app_eq_nil in Hkd as [? _]. contradiction. }
  destruct d as [|y d']; [contradiction |].
  rewrite <- Hkd, rev_app_distr in Hlen.
  rewrite concat_app_length in Hlen.
  - simpl in Hlen. lia.
  - intros Hn. apply (f_equal (@length _)) in Hn. rewrite length_rev in Hn. discriminate Hn.
  - intros Hn. apply (f_equal (@length _)) in Hn. rewrite length_rev in Hn.
    destruct k; [contradiction | discriminate Hn].
Qed.

(** *** Claims about single rules *)

(** C2. The resolver scans the rules in declared order and the verdict
    after the last rule is final: the verdict of a candidate is decided
    by the last rule, in declared order, that matches it (excluded when
    that rule is not negated, included when it is), and a candidate no
    rule matches is included. In particular, when the matcher compiled
    from [foo] matches the path [foo], the lists [["foo"; "!foo"]] and
    [["!foo"; "foo"]] give the path [foo] opposite verdicts. *)
Theorem last_match_wins :
  (forall (fs : filesystem) (rules : list rule) (D : bool) (p : Path),
      fst (is_ignored fs rules D p)
      = match List.find (rule_hits (is_dir fs p) (as_posix_rel p)) (rev rules) with
        | Some r => negb (rule_is_neg r)
        | None => false
        end)
  /\ (forall m : PathSpec,
        from_lines "foo" = Ok m -> m "foo" = true ->
        exists r1 r2 : list rule,
          _compile_gitignore_rules ["foo"; "!foo"] = Ok r1
          /\ _compile_gitignore_rules ["!foo"; "foo"] = Ok r2
          /\ forall (fs : filesystem) (D : bool),
               fst (is_ignored fs r1 D ["foo"]) = false
               /\ fst (is_ignored fs r2 D ["foo"]) = true).
Proof.
  split; [exact is_ignored_last_hit |].
  intros m Hc Hm.
  exists [(false, m, "foo"); (true, m, "!foo")], [(true, m, "!foo"); (false, m, "foo")].
  repeat split.
  - simpl. rewrite Hc. reflexivity.
  - simpl. rewrite Hc. reflexivity.
  - rewrite is_ignored_last_hit. simpl. rewrite Hm. reflexivity.
  - rewrite is_ignored_last_hit. simpl. rewrite Hm. reflexivity.
Qed.

(** C3. With the single rule [build/] (not negated), a candidate is
    excluded exactly when its root-relative path is [build] or starts
    with [build/]; and after any earlier rules, the rule [build/] sets
    the verdict of such a candidate to excluded and leaves the verdict of
    every other candidate as the earlier rules left it. *)
Theorem build_dir_rule_excludes_subtree (spec : PathSpec) :
  from_lines "build/" = Ok spec ->
  _compile_gitignore_rules ["build/"] = Ok [(false, spec, "build/")]
  /\ forall (fs : filesystem) (D : bool) (p : Path),
       fst (is_ignored fs [(false, spec, "build/")] D p)
       = (String.eqb (as_posix_rel p) "build"
          || PyStr.startswith "build/" (as_posix_rel p))
       /\ forall pre : list rule,
            fst (is_ignored fs (pre ++ [(false, spec, "build/")]) D p)
            = if String.eqb (as_posix_rel p) "build"
                 || PyStr.startswith "build/" (as_posix_rel p)
              then true
              else fst (is_ignored fs pre D p).
Proof.
  intros Hc. split.
  - simpl. rewrite Hc. reflexivity.
  - intros fs D p. split.
    + change [(false, spec, "build/")] with ([] ++ [(false, spec, "build/")]).
      rewrite is_ignored_snoc. simpl.
      destruct (_ || _); reflexivity.
    + intros pre. rewrite is_ignored_snoc. reflexivity.
Qed.

(** C4. A negated directory-only rule [!core], where [core] ends with
    [/], sets the verdict to included exactly for a candidate that is a
    directory and whose root-relative path equals [core] without its
    trailing slashes; the verdict of every non-directory candidate and of
    every strict descendant of such a directory is left as the earlier
    rules left it. For [core = d/] with [d] not ending in [/], the
    compared path is [d]. *)
Theorem negated_dir_rule_reincludes_only_the_directory
    (fs : filesystem) (spec : PathSpec) (core : string) (pre : list rule) (D : bool) :
  PyStr.endswith "/" core = true ->
  (forall p : Path,
      fst (is_ignored fs (pre ++ [(true, spec, "!" +:+ core)]) D p)
      = if is_dir fs p && String.eqb (as_posix_rel p) (PyStr.rstrip "/" core)
        then false
        else fst (is_ignored fs pre D p))
  /\ (forall p : Path,
        is_dir fs p = false ->
        fst (is_ignored fs (pre ++ [(true, spec, "!" +:+ core)]) D p)
        = fst (is_ignored fs pre D p))
  /\ (forall d k : Path,
        d <> [] -> k <> [] ->
        as_posix_rel d = PyStr.rstrip "/" core ->
        fst (is_ignored fs (pre ++ [(true, spec, "!" +:+ core)]) D (k ++ d))
        = fst (is_ignored fs pre D (k ++ d)))
  /\ (forall dname : string,
        core = dname +:+ "/" -> PyStr.endswith "/" dname = false ->
        PyStr.rstrip "/" core = dname).
Proof.
  intros Hslash.
  assert (Hstep : forall p : Path,
      fst (is_ignored fs (pre ++ [(true, spec, "!" +:+ core)]) D p)
      = if is_dir fs p && String.eqb (as_posix_rel p) (PyStr.rstrip "/" core)
        then false
        else fst (is_ignored fs pre D p)).
  { intros p. rewrite is_ignored_snoc. unfold rule_hits, rule_is_neg.
    rewrite startswith_bang, drop1_bang, Hslash. reflexivity. }
  split; [exact Hstep |]. split; [| split].
  - intros p Hp. rewrite Hstep, Hp. reflexivity.
  - intros d k Hd Hk Hrel. rewrite Hstep.
    destruct (String.eqb_spec (as_posix_rel (k ++ d)) (PyStr.rstrip "/" core)) as [Heq|_].
    + exfalso. apply (descendant_rel_differs d k Hd Hk). congruence.
    + rewrite andb_false_r. reflexivity.
  - intros dname -> Hd. rewrite rstrip_app_char. apply rstrip_id. exact Hd.
Qed.

(** C5. For the ignore list [["*.log"; "!important.log"]] (after any
    earlier rules), when the matcher compiled from [important.log]
    matches the path [important.log], an entry [important.log] at the
    root is included; and every other entry [n] at the root that [*.log]
    matches, and that the literal line [important.log] does not, is
    excluded. *)
Theorem negation_after_exclusion (m1 m2 : PathSpec) :
  from_lines "*.log" = Ok m1 ->
  from_lines "important.log" = Ok m2 ->
  m2 "important.log" = true ->
  exists rules : list rule,
    _compile_gitignore_rules ["*.log"; "!important.log"] = Ok rules
    /\ forall (fs : filesystem) (D : bool) (pre : list rule),
         fst (is_ignored fs (pre ++ rules) D ["important.log"]) = false
         /\ forall n : string,
              n <> "important.log" -> m1 n = true -> m2 n = false ->
              fst (is_ignored fs (pre ++ rules) D [n]) = true.
Proof.
  intros H1 H2 Himp.
  exists [(false, m1, "*.log"); (true, m2, "!important.log")]. split.
  - simpl. rewrite H1, H2. reflexivity.
  - intros fs D pre.
    change (pre ++ [(false, m1, "*.log"); (true, m2, "!important.log")])
      with (pre ++ [(false, m1, "*.log")] ++ [(true, m2, "!important.log")]).
    rewrite app_assoc. split.
    + rewrite is_ignored_snoc. simpl. rewrite Himp. reflexivity.
    + intros n _ Hlog Hlit. rewrite !is_ignored_snoc. simpl.
      rewrite Hlit, Hlog. reflexivity.
Qed.

(** C10. A non-negated directory-only rule (its pattern ends with [/] and
    does not start with [!]) excludes a candidate whose root-relative path
    equals the pattern without its trailing slashes even when the
    candidate is not a directory: the branch has no is-directory test. *)
Theorem dir_rule_excludes_regular_file
    (fs : filesystem) (spec : PathSpec) (pat : string) (pre : list rule)
    (D : bool) (p : Path) :
  PyStr.startswith "!" pat = false ->
  PyStr.endswith "/" pat = true ->
  is_dir fs p = false ->
  as_posix_rel p = PyStr.rstrip "/" pat ->
  fst (is_ignored fs (pre ++ [(false, spec, pat)]) D p) = true.
Proof.
  intros Hbang Hslash _ Hrel.
  rewrite is_ignored_snoc. unfold rule_hits, rule_is_neg.
  rewrite Hbang, Hslash, Hrel, String.eqb_refl. reflexivity.
Qed.

Lemma rule_hits_agree (d : bool) (rel : string) (r1 r2 : rule) :
  agree_on rel r1 r2 -> rule_hits d rel r1 = rule_hits d rel r2.
Proof.
  destruct r1 as [[n1 s1] p1], r2 as [[n2 s2] p2].
  unfold agree_on, rule_is_neg. simpl. intros (-> & -> & Hs).
  rewrite Hs. reflexivity.
Qed.

(** C7, as amended. [_rel_for_match] does compute the two forms of a
    directory (the bare root-relative path and the same path followed by
    a separator) and the single form of any other entry, but the resolver
    does not use them: the verdict depends on the matchers only through
    their answers on the bare root-relative path. A directory-only
    pattern reaches the directory because its own trailing slashes are
    stripped before the comparison with that bare path. *)
Theorem resolver_tests_bare_path_only (fs : filesystem) (p : Path) :
  (is_dir fs p = true ->
   as_posix_rel p <> "" -> PyStr.endswith "/" (as_posix_rel p) = false ->
   _rel_for_match fs p = [as_posix_rel p; as_posix_rel p +:+ "/"])
  /\ (is_dir fs p = false -> _rel_for_match fs p = [as_posix_rel p])
  /\ (forall (rules1 rules2 : list rule) (D : bool),
        Forall2 (agree_on (as_posix_rel p)) rules1 rules2 ->
        fst (is_ignored fs rules1 D p) = fst (is_ignored fs rules2 D p))
  /\ (forall (spec : PathSpec) (pat : string) (pre : list rule) (D : bool),
        PyStr.startswith "!" pat = false -> PyStr.endswith "/" pat = true ->
        as_posix_rel p = PyStr.rstrip "/" pat ->
        fst (is_ignored fs (pre ++ [(false, spec, pat)]) D p) = true).
Proof.
  split; [| split; [| split]].
  - intros Hd Hne Hs. unfold _rel_for_match. rewrite Hd, Hs.
    apply String.eqb_neq in Hne. rewrite Hne. reflexivity.
  - intros Hd. unfold _rel_for_match. rewrite Hd. reflexivity.
  - intros rules1 rules2 D H. rewrite !is_ignored_fst.
    assert (Hgen : forall a1 a2 : bool * list hit, fst a1 = fst a2 ->
              fst (fold_left (rule_step (is_dir fs p) (as_posix_rel p)) rules1 a1)
              = fst (fold_left (rule_step (is_dir fs p) (as_posix_rel p)) rules2 a2)).
    { induction H as [|r1 r2 l1 l2 Hr _ IH]; intros a1 a2 Ha; [exact Ha |].
      simpl. apply IH. rewrite !rule_step_verdict, (rule_hits_agree _ _ _ _ Hr), Ha.
      destruct Hr as (-> & _). reflexivity. }
    apply Hgen. reflexivity.
  - intros spec pat pre D Hbang Hslash Hrel.
    rewrite is_ignored_snoc. unfold rule_hits, rule_is_neg.
    rewrite Hbang, Hslash, Hrel, String.eqb_refl. reflexivity.
Qed.

End Resolver.

(** ** Root validation *)

Section ValidationFacts.

Variable OsPath : Type.
Variable path_of_str : string -> OsPath.
Variable os_exists : OsPath -> bool.
Variable os_resolve : OsPath -> OsPath.

Abbreviation validate := (validate_and_convert_path path_of_str os_exists os_resolve).


(** The older copy in [__main__.py] performs the same checks but returns
    the path unresolved. *)
Lemma main_validate_returns_unresolved (s : pyobj OsPath) (p : OsPath) :
  to_path path_of_str s = Some p -> os_exists p = true ->
  Main.validate_and_convert_path path_of_str os_exists s = Ok p.
Proof.
  destruct s as [x | q | t]; simpl; intros [= <-] He; rewrite ?He; reflexivity.
Qed.

End ValidationFacts.

(** ** The whole run: traversal, reconciliation and rendering *)

Lemma bind_Ok {A B : Type} (m : outcome A) (k : A -> outcome B) (b : B) :
  bind m k = Ok b -> exists a : A, m = Ok a /\ k a = Ok b.
Proof. destruct m as [a| |]; simpl; intros H; [eauto | discriminate H | discriminate H]. Qed.

Lemma strict_ancestor_nil (x : Path) : ~ strict_ancestor x [].
Proof.
  intros (k & Hk & H). symmetry in H. apply app_eq_nil in H as [? _]. contradiction.
Qed.

Lemma strict_ancestor_cons (x : Path) (c : string) (up : Path) :
  strict_ancestor x (c :: up) <-> x = up \/ strict_ancestor x up.
Proof.
  split.
  - intros (k & Hk & H). destruct k as [|c' k]; [contradiction |].
    injection H as _ H. destruct k as [|c'' k].
    + left. symmetry. exact H.
    + right. exists (c'' :: k). split; [discriminate | exact H].
  - intros [-> | (k & Hk & ->)].
    + exists [c]. split; [discriminate | reflexivity].
    + exists (c :: k). split; [discriminate | reflexivity].
Qed.

Lemma strict_ancestor_trans (x y z : Path) :
  strict_ancestor x y -> strict_ancestor y z -> strict_ancestor x z.
Proof.
  intros (k1 & H1 & ->) (k2 & H2 & ->). exists (k2 ++ k1). split.
  - intros H. apply app_eq_nil in H as [? _]. contradiction.
  - rewrite app_assoc. reflexivity.
Qed.

Lemma add_parents_in (cur : Path) (inc : gset Path) (x : Path) :
  x ∈ add_parents cur inc <-> x ∈ inc \/ strict_ancestor x cur.
Proof.
  revert inc. induction cur as [|c up IH]; intros inc; simpl.
  - split; [auto | intros [H | H]; [exact H | destruct (strict_ancestor_nil _ H)]].
  - rewrite IH, strict_ancestor_cons, elem_of_union, elem_of_singleton. tauto.
Qed.

Lemma fold_add_parents_in (l : list Path) (inc : gset Path) (x : Path) :
  x ∈ fold_left (fun (i : gset Path) (p : Path) => add_parents p i) l inc
  <-> x ∈ inc \/ exists p : Path, p ∈ l /\ strict_ancestor x p.
Proof.
  revert inc. induction l as [|q l IH]; intros inc; simpl.
  - split; [auto | intros [H | (p & Hp & _)]; [exact H | inversion Hp]].
  - rewrite IH, add_parents_in. split.
    + intros [[H | H] | (p & Hp & H)]; [auto | right | right].
      * exists q. split; [left | exact H].
      * exists p. split; [right; exact Hp | exact H].
    + intros [H | (p & Hp & H)]; [auto |].
      apply elem_of_cons in Hp as [-> | Hp]; [auto | right; eauto].
Qed.

Lemma reconcile_in (inc : gset Path) (x : Path) :
  x ∈ reconcile inc <-> x ∈ inc \/ exists p : Path, p ∈ inc /\ strict_ancestor x p.
Proof.
  unfold reconcile. rewrite fold_add_parents_in.
  split; intros [H | (p & Hp & H)]; auto; right; exists p;
    (split; [| exact H]); apply elem_of_elements; exact Hp.
Qed.

Lemma reconcile_prefix_closed (inc : gset Path) (p q : Path) :
  p ∈ reconcile inc -> strict_ancestor q p -> q ∈ reconcile inc.
Proof.
  rewrite !reconcile_in. intros [Hp | (p' & Hp' & Hpp')] Hq; right.
  - exists p. auto.
  - exists p'. split; [exact Hp' | exact (strict_ancestor_trans _ _ _ Hq Hpp')].
Qed.

Section Builder.

Variable from_lines : string -> outcome PathSpec.
Variable repr : string -> string.

Abbreviation is_ignored' := (is_ignored repr).
Abbreviation resolve_step' := (resolve_step repr).
Abbreviation resolve_paths' := (resolve_paths repr).
Abbreviation included_set' := (included_set from_lines repr).
Abbreviation build_structure_tree' := (build_structure_tree from_lines repr).

Lemma walk_extends (fs : filesystem) (md : option Z) (fuel : nat) :
  forall (stack : list (Path * Z)) (all_paths l : list Path),
    walk fs md fuel stack all_paths = Ok l -> exists t : list Path, l = all_paths ++ t.
Proof.
  induction fuel as [|fuel IH]; intros stack all_paths l H.
  - destruct stack as [|[cur depth] stack]; simpl in H.
    + injection H as <-. exists []. now rewrite app_nil_r.
    + discriminate H.
  - destruct stack as [|[cur depth] stack]; simpl in H.
    + injection H as <-. exists []. now rewrite app_nil_r.
    + destruct (depth_reached md depth).
      * exact (IH _ _ _ H).
      * apply bind_Ok in H as (kids & _ & H).
        apply IH in H as [t ->]. rewrite <- app_assoc. eauto.
Qed.

Lemma resolve_paths_in (fs : filesystem) (rules : list rule) (D : bool)
    (l : list Path) (acc : gset Path * list string) (x : Path) :
  x ∈ fst (fold_left (resolve_step' fs rules D) l acc)
  <-> x ∈ fst acc
      \/ (x ∈ l /\ (x = root_path \/ fst (is_ignored' fs rules D x) = false)).
Proof.
  revert acc. induction l as [|q l IH]; intros acc; simpl.
  - split; [auto | intros [H | [H _]]; [exact H | inversion H]].
  - rewrite IH. unfold resolve_step.
    destruct (decide (q = root_path)) as [Hq | Hq]; simpl.
    + rewrite elem_of_union, elem_of_singleton, elem_of_cons. subst q. tauto.
    + destruct (is_ignored repr fs rules D q) as [ign pr] eqn:Hi.
      assert (Hf : fst (is_ignored repr fs rules D q) = ign) by now rewrite Hi.
      destruct ign; simpl.
      * rewrite elem_of_cons. split; [tauto |].
        intros [H | [[-> | H] H']]; [auto | | auto].
        destruct H' as [H' | H']; [contradiction | congruence].
      * rewrite elem_of_union, elem_of_singleton, elem_of_cons. split; [| tauto].
        intros [[-> | H] | H]; [right | auto | tauto]. auto.
Qed.

Lemma included_set_closed
    (fs : filesystem) (md : option Z) (il : option (list string))
    (gi eg : bool) (env : gmap string string) (inc : gset Path) (out : list string) :
  included_set' fs md il gi eg env = Ok (inc, out) ->
  root_path ∈ inc
  /\ forall p q : Path, p ∈ inc -> strict_ancestor q p -> q ∈ inc.
Proof.
  unfold included_set. intros H.
  apply bind_Ok in H as (patterns & _ & H).
  apply bind_Ok in H as (rules & _ & H).
  apply bind_Ok in H as (all_paths & Hw & H).
  injection H as <- _. split.
  - apply reconcile_in. left. unfold resolve_paths. apply resolve_paths_in. right.
    apply walk_extends in Hw as [t ->]. split; [left | left; reflexivity].
  - apply reconcile_prefix_closed.
Qed.

Lemma is_ignored_debug_indep (fs : filesystem) (rules : list rule) (D : bool) (p : Path) :
  fst (is_ignored' fs rules D p) = fst (is_ignored' fs rules false p).
Proof. unfold is_ignored. destruct (fold_left _ _ _). reflexivity. Qed.

Lemma resolve_paths_debug_indep (fs : filesystem) (rules : list rule) (D : bool)
    (l : list Path) :
  fst (resolve_paths' fs rules D l) = fst (resolve_paths' fs rules false l).
Proof.
  unfold resolve_paths.
  assert (Hgen : forall a1 a2 : gset Path * list string, fst a1 = fst a2 ->
            fst (fold_left (resolve_step' fs rules D) l a1)
            = fst (fold_left (resolve_step' fs rules false) l a2)).
  { induction l as [|q l IH]; intros a1 a2 Ha; [exact Ha |].
    simpl. apply IH. unfold resolve_step.
    destruct (decide (q = root_path)); simpl; [now rewrite Ha |].
    pose proof (is_ignored_debug_indep fs rules D q) as Hi.
    destruct (is_ignored repr fs rules D q) as [i1 o1],
             (is_ignored repr fs rules false q) as [i2 o2].
    simpl in Hi. subst i2. destruct i1; simpl; now rewrite ?Ha. }
  apply Hgen. reflexivity.
Qed.

Lemma result_independent_of_environ
    (fs : filesystem) (md : option Z) (il : option (list string)) (gi eg : bool)
    (env1 env2 : gmap string string) :
  returned (build_structure_tree' fs md il gi eg env1)
  = returned (build_structure_tree' fs md il gi eg env2).
Proof.
  unfold build_structure_tree, included_set.
  destruct (build_patterns fs il gi eg) as [patterns| |]; simpl; try reflexivity.
  destruct (_compile_gitignore_rules from_lines patterns) as [rules| |];
    simpl; try reflexivity.
  destruct (walk fs md _ _ _) as [all_paths| |]; simpl; try reflexivity.
  rewrite (resolve_paths_debug_indep fs rules (debug_enabled env1) all_paths),
          (resolve_paths_debug_indep fs rules (debug_enabled env2) all_paths).
  destruct (rec fs md _ _ _ _ _) as [lines| |]; reflexivity.
Qed.

(** *** The run with [max_depth = 1] *)

Lemma node_size_Dir (es : list (string * node)) :
  node_size (Dir es) = S (entries_size es).
Proof. reflexivity. Qed.

Lemma node_size_pos (n : node) : (1 <= node_size n)%nat.
Proof. destruct n; simpl; lia. Qed.

Lemma entries_size_length (es : list (string * node)) :
  (length es <= entries_size es)%nat.
Proof.
  induction es as [|e es IH]; simpl; [lia |].
  pose proof (node_size_pos (snd e)). lia.
Qed.

Lemma insert_by_key_length (fs : filesystem) (x : Path) (l : list Path) :
  length (insert_by_key fs x l) = S (length l).
Proof.
  induction l as [|y l IH]; simpl; [reflexivity |].
  destruct (key_le _ _); simpl; [reflexivity | now rewrite IH].
Qed.

Lemma sorted_length (fs : filesystem) (l : list Path) :
  length (sorted fs l) = length l.
Proof.
  induction l as [|x l IH]; simpl; [reflexivity |].
  now rewrite insert_by_key_length, IH.
Qed.

Lemma elem_of_insert_by_key (fs : filesystem) (x y : Path) (l : list Path) :
  y ∈ insert_by_key fs x l <-> y = x \/ y ∈ l.
Proof.
  induction l as [|z l IH]; simpl.
  - rewrite elem_of_cons. tauto.
  - destruct (key_le _ _).
    + rewrite elem_of_cons. tauto.
    + rewrite !elem_of_cons, IH. tauto.
Qed.

Lemma elem_of_sorted (fs : filesystem) (y : Path) (l : list Path) :
  y ∈ sorted fs l <-> y ∈ l.
Proof.
  induction l as [|x l IH]; simpl; [tauto |].
  rewrite elem_of_insert_by_key, elem_of_cons, IH. tauto.
Qed.

Lemma iterdir_root (fs : filesystem) (es : list (string * node)) :
  root_node fs = Dir es ->
  iterdir fs root_path = Ok (map (fun e : string * node => [fst e]) es).
Proof. intros H. unfold iterdir, lookup_path. simpl. rewrite H. reflexivity. Qed.

Lemma walk_all_reached (fs : filesystem) (md : option Z) (all_paths : list Path) :
  forall (stack : list (Path * Z)) (fuel : nat),
    (forall item : Path * Z, item ∈ stack -> depth_reached md (snd item) = true) ->
    (length stack <= fuel)%nat ->
    walk fs md fuel stack all_paths = Ok all_paths.
Proof.
  induction stack as [|[cur depth] stack IH]; intros fuel Hall Hlen.
  - destruct fuel; reflexivity.
  - destruct fuel as [|fuel]; simpl in Hlen; [lia |]. simpl.
    assert (Hcur : depth_reached md depth = true) by (apply (Hall (cur, depth)); left).
    rewrite Hcur.
    apply IH; [| lia]. intros item Hi. apply Hall. now right.
Qed.

Lemma walk_depth_one (fs : filesystem) (es : list (string * node)) :
  root_node fs = Dir es ->
  walk fs (Some 1) (node_size (root_node fs)) [(root_path, 0)] [root_path]
  = Ok (root_path :: sorted fs (map (fun e : string * node => [fst e]) es)).
Proof.
  intros Hroot. rewrite Hroot, node_size_Dir. simpl.
  rewrite (iterdir_root fs es Hroot). simpl.
  apply walk_all_reached.
  - intros item Hi. rewrite app_nil_r in Hi.
    apply list_elem_of_In, in_rev, in_map_iff in Hi as (ch & <- & _). reflexivity.
  - rewrite app_nil_r, length_rev, length_map.
    pose proof (filter_length_le (is_dir fs)
                  (sorted fs (map (fun e : string * node => [fst e]) es))) as Hf.
    rewrite sorted_length, length_map in Hf.
    pose proof (entries_size_length es). lia.
Qed.

Lemma rec_depth_reached (fs : filesystem) (md : option Z) (inc : gset Path)
    (fuel : nat) (path : Path) (prefix : string) (depth : Z) :
  depth_reached md depth = true -> rec fs md inc fuel path prefix depth = Ok [].
Proof. intros H. destruct fuel; simpl; rewrite H; reflexivity. Qed.

Lemma rec_loop_flat (fs : filesystem)
    (descend : Path -> string -> outcome (list string)) (prefix : string) (n : nat) :
  (forall (ch : Path) (pre : string), descend ch pre = Ok []) ->
  forall (l : list Path) (i : Z),
  exists lines : list string,
    rec_loop fs descend prefix n i l = Ok lines
    /\ length lines = length l
    /\ forall (j : nat) (ch : Path),
         l !! j = Some ch ->
         lines !! j
         = Some (prefix +:+ ends (i + Z.of_nat j =? Z.of_nat n - 1) +:+ name fs ch).
Proof.
  intros Hd. induction l as [|c l IH]; intros i.
  - exists []. repeat split. intros j ch H. discriminate H.
  - destruct (IH (i + 1)) as (lines & Hrun & Hlen & Hnth).
    exists ((prefix +:+ ends (i =? Z.of_nat n - 1) +:+ name fs c) :: lines).
    split; [| split].
    + simpl. destruct (is_dir fs c); rewrite ?Hd; simpl; rewrite Hrun; reflexivity.
    + simpl. now rewrite Hlen.
    + intros [|j] ch Hj; simpl in *.
      * injection Hj as ->. now rewrite Z.add_0_r.
      * rewrite (Hnth j ch Hj).
        replace (i + Z.of_nat (S j)) with (i + 1 + Z.of_nat j) by lia. reflexivity.
Qed.

Lemma depth_one_membership (fs : filesystem) (rules : list rule) (D : bool)
    (chs : list Path) (c : Path) :
  (forall x : Path, x ∈ chs -> length x = 1%nat) ->
  c ∈ chs ->
  c ∈ reconcile (fst (resolve_paths' fs rules D (root_path :: chs)))
  <-> fst (is_ignored' fs rules D c) = false.
Proof.
  intros Hone Hc.
  assert (Hin : forall x : Path,
             x ∈ fst (resolve_paths' fs rules D (root_path :: chs))
             <-> (x = root_path \/ x ∈ chs)
                 /\ (x = root_path \/ fst (is_ignored' fs rules D x) = false)).
  { intros x. unfold resolve_paths. rewrite resolve_paths_in. simpl.
    rewrite elem_of_cons. split; [| auto].
    intros [H | H]; [| exact H]. apply not_elem_of_empty in H. contradiction. }
  assert (Hcne : c <> root_path).
  { intros ->. apply Hone in Hc. discriminate Hc. }
  rewrite reconcile_in, Hin. split.
  - intros [[_ [H | H]] | (p & Hp & k & Hk & ->)]; [contradiction | exact H |].
    exfalso. apply Hin in Hp as [[Hp | Hp] _].
    + apply app_eq_nil in Hp as [? _]. contradiction.
    + apply Hone in Hp. rewrite length_app in Hp. apply Hone in Hc.
      destruct k; [contradiction | simpl in Hp; lia].
  - intros H. left. split; [right; exact Hc | right; exact H].
Qed.

(** C6. With [max_depth = 1] and a directory as root, the returned text
    is the root's name followed by exactly one line per child of the root
    that the rules do not exclude, in sibling order: every line belongs
    to an entry directly below the root, each such included entry has its
    line, and a directory among them is listed like a file, with nothing
    below it. *)
Theorem depth_one_lists_only_root_children
    (fs : filesystem) (es : list (string * node)) (il : option (list string))
    (gi eg : bool) (env : gmap string string)
    (patterns : list string) (rules : list rule) :
  root_node fs = Dir es ->
  build_patterns fs il gi eg = Ok patterns ->
  _compile_gitignore_rules from_lines patterns = Ok rules ->
  let kids :=
    List.filter (fun c : Path => negb (fst (is_ignored' fs rules (debug_enabled env) c)))
                (sorted fs (map (fun e : string * node => [fst e]) es)) in
  exists (lines out : list string),
    build_structure_tree' fs (Some 1) il gi eg env
    = Ok (String.concat PyStr.newline (root_name fs :: lines), out)
    /\ length lines = length kids
    /\ forall (i : nat) (ch : Path),
         kids !! i = Some ch ->
         length ch = 1%nat
         /\ lines !! i
            = Some (ends (Z.of_nat i =? Z.of_nat (length kids) - 1) +:+ name fs ch).
Proof.
  intros Hroot Hpat Hrules kids. set (D := debug_enabled env) in *.
  set (chs := sorted fs (map (fun e : string * node => [fst e]) es)) in *.
  assert (Hone : forall x : Path, x ∈ chs -> length x = 1%nat).
  { intros x Hx. apply elem_of_sorted, list_elem_of_In, in_map_iff in Hx as (e & <- & _).
    reflexivity. }
  set (inc := reconcile (fst (resolve_paths' fs rules D (root_path :: chs)))).
  assert (Hkids : List.filter (fun c : Path => bool_decide (c ∈ inc)) chs = kids).
  { apply List.filter_ext_in. intros c Hc. apply list_elem_of_In in Hc.
    pose proof (depth_one_membership fs rules D chs c Hone Hc) as Hm. fold inc in Hm.
    destruct (fst (is_ignored' fs rules D c)); simpl.
    - apply bool_decide_eq_false. intros Hcin. apply Hm in Hcin. discriminate Hcin.
    - apply bool_decide_eq_true. apply Hm. reflexivity. }
  destruct (rec_loop_flat fs
              (fun ch pre => rec fs (Some 1) inc (entries_size es) ch pre (0 + 1))
              "" (length kids)
              (fun ch pre => rec_depth_reached fs (Some 1) inc _ ch pre (0 + 1) eq_refl)
              kids 0) as (lines & Hrun & Hlen & Hnth).
  exists lines, (snd (resolve_paths' fs rules D (root_path :: chs))).
  split; [| split].
  - unfold build_structure_tree, included_set.
    rewrite Hpat. simpl. rewrite Hrules. simpl.
    rewrite (walk_depth_one fs es Hroot). simpl. fold D. fold chs. fold inc.
    rewrite Hroot, node_size_Dir. simpl.
    unfold list_children. rewrite (iterdir_root fs es Hroot). simpl.
    fold chs. rewrite Hkids, Hrun. reflexivity.
  - exact Hlen.
  - intros i ch Hi. split.
    + apply Hone. apply list_elem_of_lookup_2 in Hi.
      apply list_elem_of_In, List.filter_In in Hi as [Hi _].
      apply list_elem_of_In. exact Hi.
    + rewrite (Hnth i ch Hi). reflexivity.
Qed.

End Builder.

(** ** Termination: the fuel of the two loops is never exhausted *)

Lemma resolve_down_app (n : node) (a b : list string) :
  resolve_down n (a ++ b)
  = match resolve_down n a with
    | Some m => resolve_down m b
    | None => None
    end.
Proof.
  revert n. induction a as [|c a IH]; intros n; simpl; [reflexivity |].
  destruct n as [t | es]; [reflexivity |].
  destruct (find_entry c es); [apply IH | reflexivity].
Qed.

Lemma lookup_child (fs : filesystem) (cur : Path) (es : list (string * node)) (nm : string) :
  lookup_path fs cur = Some (Dir es) ->
  lookup_path fs (nm :: cur) = find_entry nm es.
Proof.
  unfold lookup_path. intros H. simpl. rewrite resolve_down_app, H. simpl.
  destruct (find_entry nm es); reflexivity.
Qed.

Lemma find_entry_In (nm : string) (es : list (string * node)) (x : node) :
  find_entry nm es = Some x -> In (nm, x) es.
Proof.
  induction es as [|[n y] es IH]; simpl; [discriminate |].
  destruct (String.eqb_spec n nm) as [-> | _].
  - intros [= ->]. now left.
  - intros H. right. exact (IH H).
Qed.

Lemma find_entry_NoDup (es : list (string * node)) (e : string * node) :
  NoDup (map fst es) -> In e es -> find_entry (fst e) es = Some (snd e).
Proof.
  induction es as [|[n y] es IH]; simpl; [contradiction |].
  intros Hnd [<- | Hin]; simpl.
  - now rewrite String.eqb_refl.
  - apply NoDup_cons in Hnd as [Hn Hnd].
    destruct (String.eqb_spec n (fst e)) as [-> | _].
    + exfalso. apply Hn. apply list_elem_of_In, in_map. exact Hin.
    + exact (IH Hnd Hin).
Qed.

Lemma wf_node_entry (es : list (string * node)) (e : string * node) :
  wf_node (Dir es) -> In e es -> wf_node (snd e).
Proof.
  simpl. intros [_ Hall]. induction es as [|e' es IH]; simpl; [contradiction |].
  destruct Hall as [He Hall]. intros [<- | Hin]; [exact He | exact (IH Hall Hin)].
Qed.

Lemma node_size_entry (es : list (string * node)) (e : string * node) :
  In e es -> (node_size (snd e) <= entries_size es)%nat.
Proof.
  induction es as [|e' es IH]; simpl; [contradiction |].
  intros [<- | Hin]; [lia | specialize (IH Hin); lia].
Qed.

Lemma sum_insert_by_key {f : Path -> nat} (fs : filesystem) (x : Path) (l : list Path) :
  sum_list_with f (insert_by_key fs x l) = (f x + sum_list_with f l)%nat.
Proof.
  induction l as [|y l IH]; simpl; [reflexivity |].
  destruct (key_le _ _); simpl; [reflexivity | rewrite IH; lia].
Qed.

Lemma sum_sorted {f : Path -> nat} (fs : filesystem) (l : list Path) :
  sum_list_with f (sorted fs l) = sum_list_with f l.
Proof.
  induction l as [|x l IH]; simpl; [reflexivity |].
  now rewrite sum_insert_by_key, IH.
Qed.

Lemma sum_filter_le {A : Type} (f : A -> nat) (g : A -> bool) (l : list A) :
  (sum_list_with f (List.filter g l) <= sum_list_with f l)%nat.
Proof.
  induction l as [|x l IH]; simpl; [lia |].
  destruct (g x); simpl; lia.
Qed.

Lemma sum_rev {A : Type} (f : A -> nat) (l : list A) :
  sum_list_with f (rev l) = sum_list_with f l.
Proof.
  induction l as [|x l IH]; simpl; [reflexivity |].
  rewrite sum_list_with_app, IH. simpl. lia.
Qed.

Lemma sum_children (fs : filesystem) (cur : Path) (es : list (string * node)) :
  lookup_path fs cur = Some (Dir es) ->
  NoDup (map fst es) ->
  sum_list_with (path_weight fs) (map (fun e : string * node => fst e :: cur) es)
  = entries_size es.
Proof.
  intros Hcur Hnd.
  assert (Hgen : forall l : list (string * node),
            (forall e : string * node, In e l -> In e es) ->
            sum_list_with (path_weight fs) (map (fun e : string * node => fst e :: cur) l)
            = entries_size l).
  { induction l as [|e l IH]; intros Hsub; simpl; [reflexivity |].
    rewrite IH by (intros e' He'; apply Hsub; now right).
    unfold path_weight at 1.
    rewrite (lookup_child fs cur es (fst e) Hcur),
            (find_entry_NoDup es e Hnd (Hsub e (or_introl eq_refl))).
    reflexivity. }
  apply Hgen. auto.
Qed.

Lemma sum_map_pair (fs : filesystem) (d : Z) (l : list Path) :
  sum_list_with (fun item : Path * Z => path_weight fs (fst item))
    (map (fun ch : Path => (ch, d)) l)
  = sum_list_with (path_weight fs) l.
Proof. induction l as [|x l IH]; simpl; [reflexivity | now rewrite IH]. Qed.

Lemma path_weight_pos (fs : filesystem) (p : Path) : (1 <= path_weight fs p)%nat.
Proof. unfold path_weight. destruct (lookup_path fs p); [apply node_size_pos | lia]. Qed.

Lemma walk_terminates (fs : filesystem) (md : option Z) (fuel : nat) :
  forall (stack : list (Path * Z)) (all_paths : list Path),
    (forall item : Path * Z, In item stack ->
       exists n : node, lookup_path fs (fst item) = Some n /\ wf_node n) ->
    (stack_weight fs stack <= fuel)%nat ->
    walk fs md fuel stack all_paths <> OutOfFuel.
Proof.
  induction fuel as [|fuel IH]; intros stack all_paths Hinv Hw.
  - destruct stack as [|[cur depth] stack]; [discriminate |].
    unfold stack_weight in Hw. simpl in Hw.
    pose proof (path_weight_pos fs cur). lia.
  - destruct stack as [|[cur depth] stack]; [discriminate |].
    unfold stack_weight in Hw. simpl in Hw. simpl.
    pose proof (path_weight_pos fs cur) as Hpos.
    destruct (depth_reached md depth).
    + apply IH.
      * intros item Hi. apply Hinv. now right.
      * unfold stack_weight. lia.
    + destruct (Hinv (cur, depth) (or_introl eq_refl)) as (n & Hn & Hwf). simpl in Hn.
      unfold iterdir. rewrite Hn. destruct n as [t | es]; [discriminate |]. simpl.
      apply IH.
      * intros item Hi. apply in_app_or in Hi as [Hi | Hi]; [| apply Hinv; now right].
        apply in_rev, in_map_iff in Hi as (ch & <- & Hch). simpl.
        apply List.filter_In in Hch as [Hch _].
        apply list_elem_of_In, elem_of_sorted, list_elem_of_In, in_map_iff in Hch
          as (e & <- & He).
        exists (snd e). split; [| exact (wf_node_entry es e Hwf He)].
        rewrite (lookup_child fs cur es (fst e) Hn).
        apply find_entry_NoDup; [apply Hwf | exact He].
      * unfold stack_weight. rewrite sum_list_with_app, sum_rev.
        assert (Hpush :
          (sum_list_with (fun item : Path * Z => path_weight fs (fst item))
             (map (fun ch : Path => (ch, (depth + 1)%Z))
                (List.filter (is_dir fs)
                   (sorted fs (map (fun e : string * node => fst e :: cur) es))))
           <= entries_size es)%nat).
        { rewrite sum_map_pair.
          pose proof (sum_filter_le (path_weight fs) (is_dir fs)
                        (sorted fs (map (fun e : string * node => fst e :: cur) es))) as Hf.
          rewrite sum_sorted, (sum_children fs cur es Hn (proj1 Hwf)) in Hf. exact Hf. }
        unfold path_weight in Hw at 1. rewrite Hn, node_size_Dir in Hw.
        fold (stack_weight fs stack) in *. unfold stack_weight in *. lia.
Qed.

Lemma rec_loop_terminates (fs : filesystem)
    (descend : Path -> string -> outcome (list string)) (prefix : string) (n : nat) :
  forall (l : list Path) (i : Z),
    (forall (ch : Path) (pre : string),
        In ch l -> is_dir fs ch = true -> descend ch pre <> OutOfFuel) ->
    rec_loop fs descend prefix n i l <> OutOfFuel.
Proof.
  induction l as [|c l IH]; intros i Hd; simpl; [discriminate |].
  assert (Hrest : rec_loop fs descend prefix n (i + 1) l <> OutOfFuel).
  { apply IH. intros ch pre Hch. apply Hd. now right. }
  destruct (is_dir fs c) eqn:Hc.
  - pose proof (Hd c (prefix +:+ extents (i =? Z.of_nat n - 1)) (or_introl eq_refl) Hc) as Hb.
    destruct (descend c _); simpl; [| discriminate | contradiction].
    destruct (rec_loop fs descend prefix n (i + 1) l); simpl;
      [discriminate | discriminate | contradiction].
  - simpl.
    destruct (rec_loop fs descend prefix n (i + 1) l); simpl;
      [discriminate | discriminate | contradiction].
Qed.

Lemma rec_terminates (fs : filesystem) (md : option Z) (inc : gset Path) (fuel : nat) :
  forall (path : Path) (prefix : string) (depth : Z) (n : node),
    lookup_path fs path = Some n -> (node_size n <= fuel)%nat ->
    rec fs md inc fuel path prefix depth <> OutOfFuel.
Proof.
  induction fuel as [|fuel IH]; intros path prefix depth n Hn Hsz.
  - pose proof (node_size_pos n). lia.
  - simpl. destruct (depth_reached md depth); [discriminate |].
    unfold list_children, iterdir. rewrite Hn.
    destruct n as [t | es]; [discriminate |]. simpl.
    apply rec_loop_terminates. intros ch pre Hch Hdir.
    apply List.filter_In in Hch as [Hch _].
    apply list_elem_of_In, elem_of_sorted, list_elem_of_In, in_map_iff in Hch
      as (e & <- & He).
    rewrite node_size_Dir in Hsz.
    unfold is_dir in Hdir. rewrite (lookup_child fs path es (fst e) Hn) in Hdir.
    destruct (find_entry (fst e) es) as [x |] eqn:Hx; [| discriminate].
    apply (IH _ _ _ x).
    + rewrite (lookup_child fs path es (fst e) Hn). exact Hx.
    + apply find_entry_In in Hx. pose proof (node_size_entry es _ Hx) as Hle.
      simpl in Hle. lia.
Qed.

Lemma is_dir_lookup (fs : filesystem) (p : Path) :
  is_dir fs p = true -> exists es : list (string * node), lookup_path fs p = Some (Dir es).
Proof.
  unfold is_dir. destruct (lookup_path fs p) as [[t | es] |]; [discriminate | eauto | discriminate].
Qed.

Lemma walk_never_raises (fs : filesystem) (md : option Z) (fuel : nat) :
  forall (stack : list (Path * Z)) (all_paths : list Path) (e : exn),
    (forall item : Path * Z, In item stack -> is_dir fs (fst item) = true) ->
    walk fs md fuel stack all_paths <> Raise e.
Proof.
  induction fuel as [|fuel IH]; intros stack all_paths e Hdir;
    destruct stack as [|[cur depth] stack]; simpl; try discriminate.
  destruct (depth_reached md depth).
  - apply IH. intros item Hi. apply Hdir. now right.
  - destruct (is_dir_lookup fs cur (Hdir (cur, depth) (or_introl eq_refl))) as [es Hes].
    unfold iterdir. rewrite Hes. simpl. apply IH.
    intros item Hi. apply in_app_or in Hi as [Hi | Hi]; [| apply Hdir; now right].
    apply in_rev, in_map_iff in Hi as (ch & <- & Hch). simpl.
    apply List.filter_In in Hch as [_ Hch]. exact Hch.
Qed.

Lemma rec_loop_never_raises (fs : filesystem)
    (descend : Path -> string -> outcome (list string)) (prefix : string) (n : nat) (e : exn) :
  forall (l : list Path) (i : Z),
    (forall (ch : Path) (pre : string), is_dir fs ch = true -> descend ch pre <> Raise e) ->
    rec_loop fs descend prefix n i l <> Raise e.
Proof.
  induction l as [|c l IH]; intros i Hd; simpl; [discriminate |].
  specialize (IH (i + 1) Hd).
  destruct (is_dir fs c) eqn:Hc.
  - pose proof (Hd c (prefix +:+ extents (i =? Z.of_nat n - 1)) Hc) as Hb.
    destruct (descend c _); simpl; [| congruence | discriminate].
    destruct (rec_loop fs descend prefix n (i + 1) l); simpl; congruence.
  - simpl. destruct (rec_loop fs descend prefix n (i + 1) l); simpl; congruence.
Qed.

Lemma rec_never_raises (fs : filesystem) (md : option Z) (inc : gset Path) (fuel : nat) :
  forall (path : Path) (prefix : string) (depth : Z) (e : exn),
    is_dir fs path = true -> rec fs md inc fuel path prefix depth <> Raise e.
Proof.
  induction fuel as [|fuel IH]; intros path prefix depth e Hdir; simpl;
    destruct (depth_reached md depth); try discriminate.
  destruct (is_dir_lookup fs path Hdir) as [es Hes].
  unfold list_children, iterdir. rewrite Hes. simpl.
  apply rec_loop_never_raises. intros ch pre Hch. apply IH. exact Hch.
Qed.

Section Termination.

Variable from_lines : string -> outcome PathSpec.
Variable repr : string -> string.

Lemma included_set_returns
    (fs : filesystem) (md : option Z) (il : option (list string)) (gi eg : bool) (env : gmap string string)
    (es : list (string * node)) (patterns : list string) (rules : list rule) :
  root_node fs = Dir es -> wf_node (Dir es) ->
  build_patterns fs il gi eg = Ok patterns ->
  _compile_gitignore_rules from_lines patterns = Ok rules ->
  exists (inc : gset Path) (out : list string),
    included_set from_lines repr fs md il gi eg env = Ok (inc, out).
Proof.
  intros Hroot Hwf Hpat Hrules. unfold included_set.
  rewrite Hpat. simpl. rewrite Hrules. simpl.
  pose proof (walk_terminates fs md (node_size (root_node fs))
                [(root_path, 0)] [root_path]) as Hfuel.
  pose proof (walk_never_raises fs md (node_size (root_node fs))
                [(root_path, 0)] [root_path]) as Hraise.
  destruct (walk fs md _ _ _) as [all_paths | e |]; simpl.
  - eauto.
  - exfalso. apply (Hraise e); [| reflexivity].
    intros item [<- | []]. unfold is_dir, lookup_path. simpl. now rewrite Hroot.
  - exfalso. apply Hfuel; [| | reflexivity].
    + intros item [<- | []]. exists (root_node fs). split; [reflexivity |].
      rewrite Hroot. exact Hwf.
    + unfold stack_weight, path_weight. simpl. lia.
Qed.

(** On a well-formed tree whose root is a directory, and with patterns
    that the matcher library accepts, [build_structure_tree] returns its
    text: neither loop runs out of fuel and nothing is raised. *)
Lemma build_structure_tree_returns
    (fs : filesystem) (md : option Z) (il : option (list string)) (gi eg : bool) (env : gmap string string)
    (es : list (string * node)) (patterns : list string) (rules : list rule) :
  root_node fs = Dir es -> wf_node (Dir es) ->
  build_patterns fs il gi eg = Ok patterns ->
  _compile_gitignore_rules from_lines patterns = Ok rules ->
  exists (text : string) (out : list string),
    build_structure_tree from_lines repr fs md il gi eg env = Ok (text, out).
Proof.
  intros Hroot Hwf Hpat Hrules. unfold build_structure_tree.
  destruct (included_set_returns fs md il gi eg env es patterns rules
              Hroot Hwf Hpat Hrules) as (inc & out & ->). simpl.
  pose proof (rec_terminates fs md inc (node_size (root_node fs)) root_path "" 0
                (root_node fs) eq_refl (le_n _)) as Hfuel.
  pose proof (rec_never_raises fs md inc (node_size (root_node fs)) root_path "" 0)
    as Hraise.
  destruct (rec fs md inc _ _ _ _) as [lines | e |]; simpl.
  - eauto.
  - exfalso. apply (Hraise e); [| reflexivity].
    unfold is_dir, lookup_path. simpl. now rewrite Hroot.
  - contradiction.
Qed.

Hypothesis from_lines_returns : forall core : string, from_lines core <> OutOfFuel.

Lemma compile_terminates (patterns : list string) :
  _compile_gitignore_rules from_lines patterns <> OutOfFuel.
Proof.
  induction patterns as [|pat rest IH]; simpl; [discriminate |].
  destruct (String.eqb _ ""); [exact IH |].
  pose proof (from_lines_returns
                (if PyStr.startswith "!" pat then PyStr.drop1 pat else pat)) as Hf.
  destruct (from_lines _); simpl; [| discriminate | contradiction].
  destruct (_compile_gitignore_rules from_lines rest); simpl;
    [discriminate | discriminate | contradiction].
Qed.

(** On any well-formed tree [build_structure_tree] finishes, by
    returning or by raising. *)
Lemma build_structure_tree_terminates
    (fs : filesystem) (md : option Z) (il : option (list string)) (gi eg : bool) (env : gmap string string) :
  wf_node (root_node fs) ->
  build_structure_tree from_lines repr fs md il gi eg env <> OutOfFuel.
Proof.
  intros Hwf. unfold build_structure_tree, included_set, build_patterns.
  assert (Hg : (if gi then _read_gitignore_lines fs else Ok []) <> OutOfFuel).
  { destruct gi; [| discriminate]. unfold _read_gitignore_lines.
    destruct (lookup_path fs [".gitignore"]) as [[t | es] |]; discriminate. }
  destruct (if gi then _read_gitignore_lines fs else Ok []) as [from_file | |];
    simpl; [| discriminate | contradiction].
  pose proof (compile_terminates
                (from_file ++ match il with Some l => l | None => [] end
                 ++ (if eg then [".git/"] else []))) as Hc.
  destruct (_compile_gitignore_rules from_lines _) as [rules | |];
    simpl; [| discriminate | contradiction].
  pose proof (walk_terminates fs md (node_size (root_node fs))
                [(root_path, 0)] [root_path]) as Hw.
  destruct (walk fs md _ _ _) as [all_paths | |]; simpl; [| discriminate |].
  - pose proof (rec_terminates fs md
                  (reconcile (fst (resolve_paths repr fs rules (debug_enabled env) all_paths)))
                  (node_size (root_node fs)) root_path "" 0 (root_node fs)
                  eq_refl (le_n _)) as Hr.
    destruct (rec fs md _ _ _ _ _); simpl; [discriminate | discriminate | contradiction].
  - exfalso. apply Hw; [| | reflexivity].
    + intros item [<- | []]. exists (root_node fs). split; [reflexivity | exact Hwf].
    + unfold stack_weight, path_weight. simpl. lia.
Qed.

End Termination.

(** C1. The final set [included] of [build_structure_tree] contains the
    root and, with every member, all of its strict ancestors, whatever
    the rules are; and the run does get to that set whenever the root is
    a directory of a well-formed tree and the patterns compile. *)
Theorem included_set_prefix_closed
    (from_lines : string -> outcome PathSpec) (repr : string -> string)
    (fs : filesystem) (md : option Z) (il : option (list string)) (gi eg : bool)
    (env : gmap string string) :
  (forall (inc : gset Path) (out : list string),
      included_set from_lines repr fs md il gi eg env = Ok (inc, out) ->
      root_path ∈ inc
      /\ forall p q : Path, p ∈ inc -> strict_ancestor q p -> q ∈ inc)
  /\ (forall (es : list (string * node)) (patterns : list string) (rules : list rule),
        root_node fs = Dir es -> wf_node (Dir es) ->
        build_patterns fs il gi eg = Ok patterns ->
        _compile_gitignore_rules from_lines patterns = Ok rules ->
        exists (inc : gset Path) (out : list string),
          included_set from_lines repr fs md il gi eg env = Ok (inc, out)).
Proof.
  split.
  - intros inc out. apply included_set_closed.
  - intros es patterns rules. apply included_set_returns.
Qed.


(** ** The model at work on concrete trees *)

Example demo_depth_one_text :
  returned (build_structure_tree Wildmatch.from_lines Wildmatch.repr demo_fs (Some 1)
              (Some ["*.log"; "!important.log"]) true true ∅)
  = Ok (String.concat PyStr.newline
          ["proj"; "├── build"; "├── src"; "├── foo"; "└── important.log"]).
Proof. vm_compute. reflexivity. Qed.

Example demo_reincluded_branch_text :
  returned (build_structure_tree Wildmatch.from_lines Wildmatch.repr demo_fs None
              (Some ["build/"; "src/"; "*.log"; "foo"; "!build/keep/a.txt"]) true true ∅)
  = Ok (String.concat PyStr.newline
          ["proj"; "└── build"; "     └── keep"; "          └── a.txt"]).
Proof. vm_compute. reflexivity. Qed.

Example demo_file_root_raises :
  build_structure_tree Wildmatch.from_lines Wildmatch.repr
    {| root_name := "notes.txt"; root_node := File "" |} None None true true ∅
  = Raise NotADirectoryError.
Proof. reflexivity. Qed.

Lemma demo_fs_wf : wf_node (root_node demo_fs).
Proof.
  simpl. repeat split; apply (bool_decide_unpack _); vm_compute; exact I.
Qed.

Lemma included_set_prefix_closed_witness :
  exists (inc : gset Path) (out : list string),
    included_set Wildmatch.from_lines Wildmatch.repr demo_fs None
      (Some ["build/"; "!build/keep/a.txt"]) true true ∅ = Ok (inc, out)
    /\ root_path ∈ inc
    /\ forall p q : Path, p ∈ inc -> strict_ancestor q p -> q ∈ inc.
Proof.
  destruct (included_set_prefix_closed Wildmatch.from_lines Wildmatch.repr demo_fs None
              (Some ["build/"; "!build/keep/a.txt"]) true true ∅)
    as [Hclosed Hreturns].
  destruct (Hreturns _ ["build/"; "!build/keep/a.txt"; ".git/"]
              [(false, Wildmatch.match_file "build/", "build/");
               (true, Wildmatch.match_file "build/keep/a.txt", "!build/keep/a.txt");
               (false, Wildmatch.match_file ".git/", ".git/")]
              eq_refl demo_fs_wf eq_refl eq_refl) as (inc & out & E).
  exists inc, out. split; [exact E | exact (Hclosed inc out E)].
Defined.

Lemma last_match_wins_witness :
  exists r1 r2 : list rule,
    _compile_gitignore_rules Wildmatch.from_lines ["foo"; "!foo"] = Ok r1
    /\ _compile_gitignore_rules Wildmatch.from_lines ["!foo"; "foo"] = Ok r2
    /\ forall (fs : filesystem) (D : bool),
         fst (is_ignored Wildmatch.repr fs r1 D ["foo"]) = false
         /\ fst (is_ignored Wildmatch.repr fs r2 D ["foo"]) = true.
Proof.
  exact (proj2 (last_match_wins Wildmatch.from_lines Wildmatch.repr)
           (Wildmatch.match_file "foo") eq_refl eq_refl).
Defined.

Lemma build_dir_rule_excludes_subtree_witness :
  Wildmatch.from_lines "build/" = Ok (Wildmatch.match_file "build/")
  /\ fst (is_ignored Wildmatch.repr demo_fs
            [(false, Wildmatch.match_file "build/", "build/")] false ["out.o"; "build"])
     = true
  /\ fst (is_ignored Wildmatch.repr demo_fs
            [(false, Wildmatch.match_file "build/", "build/")] false ["main.py"; "src"])
     = false.
Proof.
  split; [reflexivity |].
  pose proof (build_dir_rule_excludes_subtree Wildmatch.from_lines Wildmatch.repr
                (Wildmatch.match_file "build/") eq_refl) as [_ H].
  split.
  - exact (eq_trans (proj1 (H demo_fs false ["out.o"; "build"])) eq_refl).
  - exact (eq_trans (proj1 (H demo_fs false ["main.py"; "src"])) eq_refl).
Defined.

Lemma negated_dir_rule_reincludes_only_the_directory_witness :
  PyStr.endswith "/" "build/" = true
  /\ fst (is_ignored Wildmatch.repr demo_fs
            ([(false, Wildmatch.match_file "build/", "build/")]
             ++ [(true, Wildmatch.match_file "build/", "!" +:+ "build/")])
            false (["out.o"] ++ ["build"]))
     = fst (is_ignored Wildmatch.repr demo_fs
              [(false, Wildmatch.match_file "build/", "build/")] false (["out.o"] ++ ["build"])).
Proof.
  split; [reflexivity |].
  pose proof (negated_dir_rule_reincludes_only_the_directory Wildmatch.repr demo_fs
                (Wildmatch.match_file "build/") "build/"
                [(false, Wildmatch.match_file "build/", "build/")] false eq_refl)
    as (_ & _ & H & _).
  apply (H ["build"] ["out.o"]); [discriminate | discriminate | reflexivity].
Defined.

Lemma negation_after_exclusion_witness :
  exists rules : list rule,
    _compile_gitignore_rules Wildmatch.from_lines ["*.log"; "!important.log"] = Ok rules
    /\ forall (fs : filesystem) (D : bool) (pre : list rule),
         fst (is_ignored Wildmatch.repr fs (pre ++ rules) D ["important.log"]) = false
         /\ forall n : string,
              n <> "important.log" ->
              Wildmatch.match_file "*.log" n = true ->
              Wildmatch.match_file "important.log" n = false ->
              fst (is_ignored Wildmatch.repr fs (pre ++ rules) D [n]) = true.
Proof.
  exact (negation_after_exclusion Wildmatch.from_lines Wildmatch.repr
           (Wildmatch.match_file "*.log") (Wildmatch.match_file "important.log")
           eq_refl eq_refl eq_refl).
Defined.

Lemma debug_log_is_excluded :
  fst (is_ignored Wildmatch.repr demo_fs
         [(false, Wildmatch.match_file "*.log", "*.log");
          (true, Wildmatch.match_file "important.log", "!important.log")]
         false ["debug.log"]) = true.
Proof. reflexivity. Qed.

Lemma depth_one_lists_only_root_children_witness :
  exists (lines out : list string),
    build_structure_tree Wildmatch.from_lines Wildmatch.repr demo_fs (Some 1)
      (Some ["*.log"; "!important.log"]) false true debug_on
    = Ok (String.concat PyStr.newline (root_name demo_fs :: lines), out)
    /\ length lines = 4%nat.
Proof.
  destruct (depth_one_lists_only_root_children Wildmatch.from_lines Wildmatch.repr
              demo_fs
              [ ("debug.log", File "");
                (".git", Dir [("HEAD", File "ref")]);
                ("src", Dir [("main.py", File ""); ("pkg", Dir [("mod.py", File "")])]);
                ("build", Dir [("out.o", File ""); ("keep", Dir [("a.txt", File "")])]);
                ("important.log", File "");
                ("foo", File "") ]
              (Some ["*.log"; "!important.log"]) false true debug_on
              ["*.log"; "!important.log"; ".git/"]
              [(false, Wildmatch.match_file "*.log", "*.log");
               (true, Wildmatch.match_file "important.log", "!important.log");
               (false, Wildmatch.match_file ".git/", ".git/")]
              eq_refl eq_refl eq_refl)
    as (lines & out & Hrun & Hlen & _).
  exists lines, out. split; [exact Hrun | exact Hlen].
Defined.

(** C7, as stated, fails: for the directory [build] and the rule
    [build/**], whose matcher accepts [build/] but not [build], the
    resolver of the code keeps the directory while a resolver testing
    both forms of [_rel_for_match] excludes it. *)
Lemma two_forms_counterexample :
  ~ (forall (fs : filesystem) (rules : list rule) (p : Path),
        is_dir fs p = true ->
        fst (is_ignored Wildmatch.repr fs rules false p)
        = is_ignored_two_forms fs rules p).
Proof.
  intros H.
  specialize (H demo_fs [(false, Wildmatch.match_file "build/**", "build/**")]
                ["build"] eq_refl).
  vm_compute in H. discriminate H.
Qed.

Lemma resolver_tests_bare_path_only_witness :
  _rel_for_match demo_fs ["build"] = ["build"; "build/"]
  /\ fst (is_ignored Wildmatch.repr demo_fs
            [(false, Wildmatch.match_file "build/**", "build/**")] false ["build"])
     = fst (is_ignored Wildmatch.repr demo_fs
              [(false, fun rel : string => String.eqb rel "build/", "build/**")]
              false ["build"]).
Proof.
  pose proof (resolver_tests_bare_path_only Wildmatch.repr demo_fs ["build"])
    as (H1 & _ & H3 & _).
  split.
  - apply H1; [reflexivity | discriminate | reflexivity].
  - apply H3. constructor; [| constructor]. repeat split.
Defined.


Lemma dir_rule_excludes_regular_file_witness :
  is_dir file_build_fs ["build"] = false
  /\ fst (is_ignored Wildmatch.repr file_build_fs
            ([] ++ [(false, Wildmatch.match_file "build/", "build/")]) false ["build"])
     = true.
Proof.
  split; [reflexivity |].
  apply (dir_rule_excludes_regular_file Wildmatch.repr file_build_fs
           (Wildmatch.match_file "build/") "build/" [] false ["build"]);
    reflexivity.
Defined.

Lemma demo_run_returns :
  exists (text : string) (out : list string),
    build_structure_tree Wildmatch.from_lines Wildmatch.repr demo_fs None None
      true true ∅ = Ok (text, out).
Proof.
  exact (build_structure_tree_returns Wildmatch.from_lines Wildmatch.repr demo_fs None None
           true true ∅ _ [".git/"] [(false, Wildmatch.match_file ".git/", ".git/")]
           eq_refl demo_fs_wf eq_refl eq_refl).
Qed.


Example demo_debug_trace :
  exists text : string,
    build_structure_tree Wildmatch.from_lines Wildmatch.repr file_build_fs None
      (Some ["build/"]) false false debug_on
    = Ok (text,
          ["[FILE] build";
           "   -> match: 'build/' on 'build' => EXCLUDE (dir and descendants)";
           "   => FINAL: IGNORED";
           "[FILE] README.md";
           "   -> no match"]).
Proof. eexists. vm_compute. reflexivity. Qed.

(** ** Further properties of the pattern compiler *)

Section Compiler.

Variable from_lines : string -> outcome PathSpec.

Abbreviation compile := (_compile_gitignore_rules from_lines).

Lemma compile_cons (pat : string) (rest : list string) :
  compile (pat :: rest)
  = if has_core pat
    then let* spec := from_lines (core_of pat) in
         let* rules := compile rest in
         Ok ((PyStr.startswith "!" pat, spec, pat) :: rules)
    else compile rest.
Proof.
  unfold has_core, core_of. simpl.
  destruct (PyStr.startswith "!" pat); destruct (String.eqb _ ""); reflexivity.
Qed.

Lemma has_core_false (pat : string) :
  has_core pat = false <-> pat = "" \/ pat = "!".
Proof.
  unfold has_core, core_of. split.
  - intros H. apply negb_false_iff, String.eqb_eq in H.
    destruct pat as [|c pat]; [now left |].
    destruct (PyStr.startswith "!" (String c pat)) eqn:Hs; [| discriminate H].
    apply String.prefix_correct in Hs. simpl in H, Hs. subst pat.
    injection Hs as ->. now right.
  - intros [-> | ->]; reflexivity.
Qed.

(** X1. The compiler keeps the declared order and drops nothing but the
    lines with an empty core, which are the empty line and a lone [!]:
    the patterns of the compiled rules are the other input lines, in
    input order, and every rule carries the spec compiled from the core
    of its own line and is negated exactly when that line starts with
    [!]. *)
Theorem compile_keeps_order (patterns : list string) (rules : list rule) :
  compile patterns = Ok rules ->
  map snd rules
  = List.filter (fun pat : string => negb (String.eqb pat "" || String.eqb pat "!")) patterns
  /\ Forall (fun r : rule =>
               rule_is_neg r = PyStr.startswith "!" (snd r)
               /\ from_lines (core_of (snd r)) = Ok (snd (fst r))) rules.
Proof.
  assert (Hkept : forall pat : string,
             has_core pat = negb (String.eqb pat "" || String.eqb pat "!")).
  { intros pat. destruct (has_core pat) eqn:Hc.
    - symmetry. apply negb_true_iff, orb_false_iff.
      split; apply String.eqb_neq; intros ->; discriminate Hc.
    - apply has_core_false in Hc as [-> | ->]; reflexivity. }
  revert rules. induction patterns as [|pat rest IH]; intros rules H.
  - injection H as <-. split; [reflexivity | constructor].
  - rewrite compile_cons in H. simpl. rewrite <- Hkept. destruct (has_core pat).
    + apply bind_Ok in H as (spec & Hspec & H).
      apply bind_Ok in H as (rs & Hrs & H). injection H as <-.
      destruct (IH rs Hrs) as [Hmap Hall]. split.
      * simpl. now rewrite Hmap.
      * constructor; [split; [reflexivity | exact Hspec] | exact Hall].
    + exact (IH rules H).
Qed.

(** X2. Compiling a concatenation is compiling the parts in order and
    concatenating the rule lists; an error of the first part comes
    first. *)
Theorem compile_app (a b : list string) :
  _compile_gitignore_rules from_lines (a ++ b)
  = let* ra := _compile_gitignore_rules from_lines a in
    let* rb := _compile_gitignore_rules from_lines b in
    Ok (ra ++ rb).
Proof.
  induction a as [|pat a IH].
  - simpl. destruct (compile b); reflexivity.
  - rewrite <- app_comm_cons, !compile_cons. destruct (has_core pat); [| exact IH].
    destruct (from_lines (core_of pat)) as [spec | e |]; simpl; try reflexivity.
    rewrite IH. destruct (compile a) as [ra | e |]; simpl; try reflexivity.
    destruct (compile b); reflexivity.
Qed.

Lemma compile_snoc (pre : list string) (pat : string) (rules : list rule) :
  has_core pat = true ->
  compile (pre ++ [pat]) = Ok rules ->
  exists (rpre : list rule) (spec : PathSpec),
    rules = rpre ++ [(PyStr.startswith "!" pat, spec, pat)].
Proof.
  intros Hcore. revert rules. induction pre as [|q pre IH]; intros rules H.
  - simpl app in H. rewrite compile_cons, Hcore in H.
    apply bind_Ok in H as (spec & _ & H). injection H as <-. exists [], spec. reflexivity.
  - rewrite <- app_comm_cons, compile_cons in H. destruct (has_core q).
    + apply bind_Ok in H as (sq & _ & H). apply bind_Ok in H as (rs & Hrs & H).
      injection H as <-. destruct (IH rs Hrs) as (rpre & spec & ->).
      exists ((PyStr.startswith "!" q, sq, q) :: rpre), spec. reflexivity.
    + exact (IH rules H).
Qed.

(** X3. The compiler succeeds exactly when the library accepts the core
    of every kept line; when it raises, the error is the one the library
    raised on the first kept line it did not accept. *)
Theorem compile_error_behaviour (patterns : list string) :
  ((exists rules : list rule, compile patterns = Ok rules)
   <-> forall pat : string, In pat patterns -> has_core pat = true ->
         exists spec : PathSpec, from_lines (core_of pat) = Ok spec)
  /\ (forall e : exn,
        compile patterns = Raise e ->
        exists (pre post : list string) (pat : string),
          patterns = pre ++ pat :: post
          /\ has_core pat = true
          /\ from_lines (core_of pat) = Raise e
          /\ exists rules : list rule, compile pre = Ok rules).
Proof.
  induction patterns as [|pat rest [IHok IHerr]].
  - split.
    + split; [intros _ pat [] | intros _; exists []; reflexivity].
    + intros e H. discriminate H.
  - rewrite compile_cons. split.
    + destruct (has_core pat) eqn:Hcore.
      * destruct (from_lines (core_of pat)) as [spec | e |] eqn:Hspec; simpl.
        -- destruct (compile rest) as [rs | e |] eqn:Hrest; simpl.
           ++ split; [| eauto]. intros _ q [<- | Hq] Hq'; [eauto |].
              apply IHok; eauto.
           ++ split; [intros [rules H]; discriminate H |].
              intros H. destruct (proj2 IHok) as [rules Hr]; [| discriminate Hr].
              intros q Hq. apply H. now right.
           ++ split; [intros [rules H]; discriminate H |].
              intros H. destruct (proj2 IHok) as [rules Hr]; [| discriminate Hr].
              intros q Hq. apply H. now right.
        -- split; [intros [rules H]; discriminate H |].
           intros H. destruct (H pat (or_introl eq_refl) Hcore) as [spec Hs].
           congruence.
        -- split; [intros [rules H]; discriminate H |].
           intros H. destruct (H pat (or_introl eq_refl) Hcore) as [spec Hs].
           congruence.
      * rewrite IHok. split; intros H q.
        -- intros [<- | Hq] Hq'; [congruence | now apply H].
        -- intros Hq. apply H. now right.
    + intros e H. destruct (has_core pat) eqn:Hcore.
      * destruct (from_lines (core_of pat)) as [spec | e' |] eqn:Hspec; simpl in H.
        -- destruct (compile rest) as [rs | e' |] eqn:Hrest; simpl in H;
             [discriminate H | | discriminate H].
           injection H as ->.
           destruct (IHerr e eq_refl) as (pre & post & q & -> & Hq & Hqe & rules & Hpre).
           exists (pat :: pre), post, q. repeat split; try assumption.
           rewrite compile_cons, Hcore, Hspec. simpl. rewrite Hpre. simpl. eauto.
        -- injection H as ->. exists [], rest, pat. repeat split; try assumption.
           exists []. reflexivity.
        -- discriminate H.
      * destruct (IHerr e H) as (pre & post & q & -> & Hq & Hqe & rules & Hpre).
        exists (pat :: pre), post, q. repeat split; try assumption.
        rewrite compile_cons, Hcore. eauto.
Qed.

End Compiler.

(** ** Further properties of [_read_gitignore_lines] *)

Lemma lstrip_head (s : string) :
  PyStr.lstrip s = ""
  \/ exists (c : ascii) (t : string), PyStr.lstrip s = String c t /\ PyStr.is_space c = false.
Proof.
  induction s as [|a s IH]; [now left |]. simpl.
  destruct (PyStr.is_space a) eqn:Ha; [exact IH | right; eauto].
Qed.

Lemma rstrip_space_idem (s : string) :
  PyStr.rstrip_space (PyStr.rstrip_space s) = PyStr.rstrip_space s.
Proof.
  induction s as [|a s IH]; [reflexivity |]. simpl.
  destruct (PyStr.rstrip_space s) as [|b r] eqn:Hr.
  - destruct (PyStr.is_space a) eqn:Ha; [reflexivity |]. simpl. now rewrite Ha.
  - simpl in *. now rewrite IH.
Qed.

Lemma rstrip_space_head (c : ascii) (t : string) :
  PyStr.is_space c = false ->
  exists r : string, PyStr.rstrip_space (String c t) = String c r.
Proof.
  intros Hc. simpl. destruct (PyStr.rstrip_space t); [rewrite Hc |]; eauto.
Qed.

Lemma strip_idem (s : string) : PyStr.strip (PyStr.strip s) = PyStr.strip s.
Proof.
  unfold PyStr.strip.
  destruct (lstrip_head s) as [-> | (c & t & -> & Hc)]; [reflexivity |].
  destruct (rstrip_space_head c t Hc) as [r Hr]. rewrite Hr.
  assert (Hl : PyStr.lstrip (String c r) = String c r) by (simpl; now rewrite Hc).
  rewrite Hl, <- Hr. apply rstrip_space_idem.
Qed.


(** ** The implicit [.git/] rule *)

Lemma prefix_app (a b : string) : String.prefix a (a +:+ b) = true.
Proof.
  induction a as [|c a IH]; simpl; [apply prefix_empty |].
  destruct (ascii_dec c c) as [_ | Hne]; [exact IH | contradiction].
Qed.

Lemma string_app_assoc (a b c : string) : a +:+ b +:+ c = (a +:+ b) +:+ c.
Proof.
  induction a as [|x a IH]; [reflexivity |].
  change (String x (a +:+ b +:+ c) = String x ((a +:+ b) +:+ c)). now rewrite IH.
Qed.

Lemma rel_at_or_below (d : string) (p : Path) :
  at_or_below d p ->
  as_posix_rel p = d \/ PyStr.startswith (d +:+ "/") (as_posix_rel p) = true.
Proof.
  intros [k ->]. unfold as_posix_rel.
  destruct (k ++ [d]) as [|x l] eqn:Hkd.
  { apply app_eq_nil in Hkd as [_ Hd]. discriminate Hd. }
  rewrite <- Hkd, rev_app_distr.
  change (rev [d] ++ rev k) with (d :: rev k).
  destruct (rev k) as [|y r]; [now left |].
  right. unfold PyStr.startswith.
  change (String.concat "/" (d :: y :: r))
    with (d +:+ "/" +:+ String.concat "/" (y :: r)).
  rewrite string_app_assoc. apply prefix_app.
Qed.

Section GitDirectory.

Variable from_lines : string -> outcome PathSpec.
Variable repr : string -> string.

Lemma patterns_end_with_git (fs : filesystem) (il : option (list string)) (gi : bool)
    (patterns : list string) :
  build_patterns fs il gi true = Ok patterns ->
  exists pre : list string, patterns = pre ++ [".git/"].
Proof.
  unfold build_patterns. intros H. apply bind_Ok in H as (from_file & _ & H).
  injection H as <-. exists (from_file ++ match il with Some l => l | None => [] end).
  now rewrite <- app_assoc.
Qed.

Lemma rules_end_with_git (fs : filesystem) (il : option (list string)) (gi : bool)
    (patterns : list string) (rules : list rule) :
  build_patterns fs il gi true = Ok patterns ->
  _compile_gitignore_rules from_lines patterns = Ok rules ->
  exists (rpre : list rule) (spec : PathSpec), rules = rpre ++ [(false, spec, ".git/")].
Proof.
  intros Hpat Hrules.
  destruct (patterns_end_with_git fs il gi patterns Hpat) as [pre ->].
  exact (compile_snoc from_lines pre ".git/" rules eq_refl Hrules).
Qed.

Lemma git_rule_excludes (fs : filesystem) (rpre : list rule) (spec : PathSpec)
    (D : bool) (p : Path) :
  at_or_below ".git" p ->
  fst (is_ignored repr fs (rpre ++ [(false, spec, ".git/")]) D p) = true.
Proof.
  intros Hp. rewrite is_ignored_snoc.
  change (rule_hits (is_dir fs p) (as_posix_rel p) (false, spec, ".git/"))
    with (String.eqb (as_posix_rel p) ".git"
          || PyStr.startswith ".git/" (as_posix_rel p)).
  destruct (rel_at_or_below ".git" p Hp) as [-> | Hpre].
  - reflexivity.
  - change (".git" +:+ "/") with ".git/" in Hpre. rewrite Hpre.
    now rewrite orb_true_r.
Qed.

(** X5. With [exclude_git] set, the resolver excludes the entry [.git]
    of the root and everything below it, whatever [.gitignore] and the
    caller's patterns say: the implicit rule comes last, so no negation
    can bring these paths back. *)
Theorem git_dir_always_excluded
    (fs : filesystem) (il : option (list string)) (gi : bool)
    (patterns : list string) (rules : list rule) (D : bool) (p : Path) :
  build_patterns fs il gi true = Ok patterns ->
  _compile_gitignore_rules from_lines patterns = Ok rules ->
  at_or_below ".git" p ->
  fst (is_ignored repr fs rules D p) = true.
Proof.
  intros Hpat Hrules Hp.
  destruct (rules_end_with_git fs il gi patterns rules Hpat Hrules) as (rpre & spec & ->).
  unfold at_or_below in Hp. destruct Hp as [k ->].
  apply git_rule_excludes. exists k. reflexivity.
Qed.

(** X6. With [exclude_git] set, neither [.git] nor anything below it is
    in the final set [included], so the reconciliation pass never
    restores it. *)
Theorem git_dir_never_included
    (fs : filesystem) (md : option Z) (il : option (list string)) (gi : bool)
    (env : gmap string string) (inc : gset Path) (out : list string) (p : Path) :
  included_set from_lines repr fs md il gi true env = Ok (inc, out) ->
  at_or_below ".git" p ->
  p ∉ inc.
Proof.
  unfold included_set. intros H Hp Hin.
  apply bind_Ok in H as (patterns & Hpat & H).
  apply bind_Ok in H as (rules & Hrules & H).
  apply bind_Ok in H as (all_paths & _ & H). injection H as <- _.
  assert (Hno : forall q : Path, at_or_below ".git" q ->
            q ∉ fst (resolve_paths repr fs rules (debug_enabled env) all_paths)).
  { intros q Hq Hqin. unfold resolve_paths in Hqin.
    apply resolve_paths_in in Hqin as [Hqin | [_ [-> | Hv]]].
    - apply not_elem_of_empty in Hqin. exact Hqin.
    - destruct Hq as [k Hk]. symmetry in Hk. apply app_eq_nil in Hk as [_ Hk].
      discriminate Hk.
    - destruct (rules_end_with_git fs il gi patterns rules Hpat Hrules)
        as (rpre & spec & ->).
      rewrite (git_rule_excludes fs rpre spec _ q Hq) in Hv. discriminate Hv. }
  apply reconcile_in in Hin as [Hin | (q & Hq & k & _ & ->)].
  - exact (Hno p Hp Hin).
  - apply (Hno (k ++ p)); [| exact Hq].
    destruct Hp as [k' ->]. exists (k ++ k'). now rewrite app_assoc.
Qed.

End GitDirectory.

(** ** What the traversal enumerates and what the final set holds *)

Lemma lookup_cons_inv (fs : filesystem) (n : string) (q : Path) (x : node) :
  lookup_path fs (n :: q) = Some x ->
  exists es : list (string * node),
    lookup_path fs q = Some (Dir es) /\ find_entry n es = Some x.
Proof.
  unfold lookup_path. simpl. rewrite resolve_down_app.
  destruct (resolve_down (root_node fs) (rev q)) as [[t | es] |]; simpl;
    [discriminate | | discriminate].
  destruct (find_entry n es) as [y |] eqn:Hy; [| discriminate].
  intros [= <-]. eauto.
Qed.

Lemma lookup_app_inv_dir (fs : filesystem) (k q : Path) (x : node) :
  k <> [] -> lookup_path fs (k ++ q) = Some x ->
  exists es : list (string * node), lookup_path fs q = Some (Dir es).
Proof.
  revert x. induction k as [|n k IH]; intros x Hk H; [contradiction |].
  simpl in H. apply lookup_cons_inv in H as (es & Hes & _).
  destruct k as [|m k]; [eauto |]. apply (IH (Dir es)); [discriminate | exact Hes].
Qed.

Lemma find_entry_names (n : string) (es : list (string * node)) :
  In n (map fst es) -> exists x : node, find_entry n es = Some x.
Proof.
  induction es as [|[m y] es IH]; simpl; [contradiction |].
  destruct (String.eqb_spec m n) as [-> | Hne]; [eauto |].
  intros [H | H]; [contradiction | exact (IH H)].
Qed.

Lemma path_exists_lookup (fs : filesystem) (p : Path) :
  path_exists fs p = true <-> exists x : node, lookup_path fs p = Some x.
Proof.
  unfold path_exists. destruct (lookup_path fs p); split; eauto; try discriminate.
  intros [x H]. discriminate H.
Qed.

Lemma walk_spec (fs : filesystem) (md : option Z) (fuel : nat) :
  forall (stack : list (Path * Z)) (all_paths l : list Path),
    walk fs md fuel stack all_paths = Ok l ->
    (forall item : Path * Z, In item stack -> snd item = Z.of_nat (length (fst item))) ->
    forall p : Path,
      In p l
      <-> In p all_paths
          \/ exists (cur : Path) (d : Z) (k : list string),
               In (cur, d) stack /\ k <> [] /\ p = k ++ cur
               /\ path_exists fs p = true /\ within_depth md p.
Proof.
  induction fuel as [|fuel IH]; intros stack all_paths l H Hinv p;
    destruct stack as [|[cur d] stack]; simpl in H; try discriminate H.
  - injection H as <-. split; [auto | intros [H | (c & d & k & [] & _)]; exact H].
  - injection H as <-. split; [auto | intros [H | (c & d & k & [] & _)]; exact H].
  - assert (Hd : d = Z.of_nat (length cur)) by exact (Hinv (cur, d) (or_introl eq_refl)).
    destruct (depth_reached md d) eqn:Hreach.
    + rewrite (IH stack all_paths l H (fun it Hit => Hinv it (or_intror Hit)) p).
      split; intros [Hp | (c & d' & k & Hc & Hk & Hpk & Hex & Hwd)]; auto; right.
      * exists c, d', k. refine (conj _ (conj Hk (conj Hpk (conj Hex Hwd)))). now right.
      * destruct Hc as [[= <- <-] | Hc];
          [| exists c, d', k; exact (conj Hc (conj Hk (conj Hpk (conj Hex Hwd))))].
        exfalso. destruct md as [m |]; [| discriminate Hreach]. simpl in *.
        subst p. rewrite length_app in Hwd. destruct k; [contradiction |].
        simpl in Hwd. lia.
    + apply bind_Ok in H as (kids & Hiter & H).
      unfold iterdir in Hiter.
      destruct (lookup_path fs cur) as [[t | es] |] eqn:Hcur; try discriminate Hiter.
      injection Hiter as <-.
      set (chs := sorted fs (map (fun e : string * node => fst e :: cur) es)) in *.
      assert (Hchs : forall c : Path, In c chs <-> exists n : string,
                       c = n :: cur /\ In n (map fst es)).
      { intros c. unfold chs. rewrite <- !list_elem_of_In, elem_of_sorted, list_elem_of_In.
        rewrite in_map_iff. split.
        - intros (e & <- & He). exists (fst e). split; [reflexivity |]. now apply in_map.
        - intros (n & -> & Hn). apply in_map_iff in Hn as (e & <- & He). eauto. }
      rewrite (IH _ _ l H).
      2:{ intros item Hi. apply in_app_or in Hi as [Hi | Hi]; [| apply Hinv; now right].
          apply in_rev, in_map_iff in Hi as (ch & <- & Hch). simpl.
          apply List.filter_In in Hch as [Hch _]. apply Hchs in Hch as (n & -> & _).
          simpl. lia. }
      split.
      * intros [Hp | (c & d' & k & Hc & Hk & Hpk & Hex & Hwd)].
        -- apply in_app_or in Hp as [Hp | Hp]; [now left |]. right.
           apply Hchs in Hp as (n & -> & Hn).
           exists cur, d, [n].
           refine (conj (or_introl eq_refl) (conj _ (conj eq_refl (conj _ _)))).
           ++ discriminate.
           ++ apply path_exists_lookup. rewrite (lookup_child fs cur es n Hcur).
              apply find_entry_names. exact Hn.
           ++ destruct md as [m |]; simpl in *; [| trivial]. lia.
        -- right. apply in_app_or in Hc as [Hc | Hc].
           ++ apply in_rev, in_map_iff in Hc as (ch & [= <- <-] & Hch).
              apply List.filter_In in Hch as [Hch _]. apply Hchs in Hch as (n & -> & _).
              exists cur, d, (k ++ [n]).
              refine (conj (or_introl eq_refl) (conj _ (conj _ (conj Hex Hwd)))).
              ** intros Hn. apply app_eq_nil in Hn as [_ Hn]. discriminate Hn.
              ** rewrite Hpk, <- app_assoc. reflexivity.
           ++ exists c, d', k.
              exact (conj (or_intror Hc) (conj Hk (conj Hpk (conj Hex Hwd)))).
      * intros [Hp | (c & d' & k & Hc & Hk & Hpk & Hex & Hwd)].
        -- left. apply in_or_app. now left.
        -- destruct Hc as [[= <- <-] | Hc].
           2:{ right. exists c, d', k.
               refine (conj _ (conj Hk (conj Hpk (conj Hex Hwd)))).
               apply in_or_app. now right. }
           destruct (exists_last Hk) as (k' & n & ->).
           rewrite <- app_assoc in Hpk. simpl in Hpk.
           pose proof Hex as Hex'.
           apply path_exists_lookup in Hex' as [x Hx]. rewrite Hpk in Hx.
           assert (Hn : In (n :: cur) chs).
           { apply Hchs. exists n. split; [reflexivity |].
             destruct k' as [|m k'].
             - simpl in Hx. rewrite (lookup_child fs cur es n Hcur) in Hx.
               apply find_entry_In in Hx. apply (in_map fst) in Hx. exact Hx.
             - destruct (lookup_app_inv_dir fs (m :: k') (n :: cur) x) as [es' Hes'];
                 [discriminate | exact Hx |].
               rewrite (lookup_child fs cur es n Hcur) in Hes'.
               apply find_entry_In in Hes'. apply (in_map fst) in Hes'. exact Hes'. }
           destruct k' as [|m k'].
           ++ left. apply in_or_app. right. subst p. exact Hn.
           ++ right. exists (n :: cur), (d + 1), (m :: k').
              refine (conj _ (conj _ (conj Hpk (conj Hex Hwd)))); [| discriminate].
              apply in_or_app. left. apply (proj1 (in_rev _ _)). apply in_map_iff.
              exists (n :: cur). split; [reflexivity |].
              apply List.filter_In. split; [exact Hn |].
              destruct (lookup_app_inv_dir fs (m :: k') (n :: cur) x) as [es' Hes'];
                [discriminate | exact Hx |].
              unfold is_dir. now rewrite Hes'.
Qed.

Lemma walk_root_members (fs : filesystem) (md : option Z) (fuel : nat) (l : list Path) :
  walk fs md fuel [(root_path, 0)] [root_path] = Ok l ->
  forall p : Path,
    In p l <-> p = root_path \/ (path_exists fs p = true /\ within_depth md p).
Proof.
  intros H p. rewrite (walk_spec fs md _ _ _ l H).
  2:{ intros item [<- | []]. reflexivity. }
  split.
  - intros [[<- | []] | (cur & d & k & [[= <- <-] | []] & _ & _ & Hex & Hwd)]; auto.
  - intros [-> | [Hex Hwd]]; [left; now left |].
    destruct p as [|n p]; [left; now left |]. right.
    exists root_path, 0, (n :: p).
    refine (conj (or_introl eq_refl) (conj _ (conj _ (conj Hex Hwd)))); [discriminate |].
    unfold root_path. now rewrite app_nil_r.
Qed.

(** X7. The traversal does not prune: when it returns, the list
    [all_paths] holds the root and exactly the existing paths within the
    depth bound, whatever the rules are going to say about them. On a
    well-formed tree whose root is a directory it does return. *)
Theorem walk_enumerates_exactly (fs : filesystem) (md : option Z) :
  (forall l : list Path,
      walk fs md (node_size (root_node fs)) [(root_path, 0)] [root_path] = Ok l ->
      forall p : Path,
        In p l <-> p = root_path \/ (path_exists fs p = true /\ within_depth md p))
  /\ (forall es : list (string * node),
        root_node fs = Dir es -> wf_node (Dir es) ->
        exists l : list Path,
          walk fs md (node_size (root_node fs)) [(root_path, 0)] [root_path] = Ok l).
Proof.
  split; [intros l; apply walk_root_members |].
  intros es Hroot Hwf.
  pose proof (walk_terminates fs md (node_size (root_node fs))
                [(root_path, 0)] [root_path]) as Hfuel.
  pose proof (walk_never_raises fs md (node_size (root_node fs))
                [(root_path, 0)] [root_path]) as Hraise.
  destruct (walk fs md _ _ _) as [l | e |]; [eauto | |].
  - exfalso. apply (Hraise e); [| reflexivity].
    intros item [<- | []]. unfold is_dir, lookup_path. simpl. now rewrite Hroot.
  - exfalso. apply Hfuel; [| | reflexivity].
    + intros item [<- | []]. exists (root_node fs). split; [reflexivity |].
      rewrite Hroot. exact Hwf.
    + unfold stack_weight, path_weight. simpl. lia.
Qed.

Section FinalSet.

Variable from_lines : string -> outcome PathSpec.
Variable repr : string -> string.

Lemma kept_paths_members (fs : filesystem) (md : option Z) (fuel : nat)
    (rules : list rule) (D D' : bool) (l : list Path) :
  walk fs md fuel [(root_path, 0)] [root_path] = Ok l ->
  forall x : Path,
    x ∈ fst (resolve_paths repr fs rules D l)
    <-> x = root_path
        \/ (x <> root_path /\ path_exists fs x = true /\ within_depth md x
            /\ fst (is_ignored repr fs rules D' x) = false).
Proof.
  intros Hwalk x. unfold resolve_paths.
  rewrite resolve_paths_in, list_elem_of_In, (walk_root_members fs md fuel l Hwalk).
  rewrite (is_ignored_debug_indep repr fs rules D x),
          <- (is_ignored_debug_indep repr fs rules D' x). simpl.
  split.
  - intros [Hx | [Hx [-> | Hv]]]; [apply not_elem_of_empty in Hx; contradiction | now left |].
    destruct (decide (x = root_path)) as [-> | Hne]; [now left |].
    destruct Hx as [-> | [Hex Hwd]]; [now left | right; auto].
  - intros [-> | (Hne & Hex & Hwd & Hv)]; right; auto.
Qed.

Lemma included_set_walk
    (fs : filesystem) (md : option Z) (il : option (list string)) (gi eg : bool)
    (env : gmap string string) (inc : gset Path) (out : list string) :
  included_set from_lines repr fs md il gi eg env = Ok (inc, out) ->
  exists (patterns : list string) (rules : list rule) (l : list Path),
    build_patterns fs il gi eg = Ok patterns
    /\ _compile_gitignore_rules from_lines patterns = Ok rules
    /\ walk fs md (node_size (root_node fs)) [(root_path, 0)] [root_path] = Ok l
    /\ inc = reconcile (fst (resolve_paths repr fs rules (debug_enabled env) l)).
Proof.
  unfold included_set. intros H.
  apply bind_Ok in H as (patterns & Hpat & H).
  apply bind_Ok in H as (rules & Hrules & H).
  apply bind_Ok in H as (l & Hwalk & H). injection H as <- _.
  exists patterns, rules, l. auto.
Qed.

Lemma included_paths_exist
    (fs : filesystem) (md : option Z) (il : option (list string)) (gi eg : bool)
    (env : gmap string string) (inc : gset Path) (out : list string) (p : Path) :
  included_set from_lines repr fs md il gi eg env = Ok (inc, out) ->
  p ∈ inc -> p <> root_path ->
  path_exists fs p = true /\ within_depth md p.
Proof.
  intros H Hp Hne.
  destruct (included_set_walk fs md il gi eg env inc out H)
    as (patterns & rules & l & _ & _ & Hwalk & ->).
  apply reconcile_in in Hp as [Hp | (q & Hq & k & Hk & ->)].
  - apply (kept_paths_members fs md _ rules _ false l Hwalk) in Hp
      as [-> | (_ & Hex & Hwd & _)]; [contradiction | auto].
  - apply (kept_paths_members fs md _ rules _ false l Hwalk) in Hq
      as [Hq | (_ & Hex & Hwd & _)].
    { apply app_eq_nil in Hq as [Hq _]. contradiction. }
    split.
    + apply path_exists_lookup in Hex as [x Hx].
      destruct (lookup_app_inv_dir fs k p x Hk Hx) as [es Hes].
      apply path_exists_lookup. eauto.
    + destruct md as [m |]; simpl in *; [| trivial]. rewrite length_app in Hwd. lia.
Qed.

(** X8. The final set [included] holds the root, every existing path
    within the depth bound that the rules do not exclude, and the
    ancestors of those paths, and nothing else: an excluded path is kept
    only as an ancestor of a kept one, and a kept path is never lost to
    the verdict of a directory above it. *)
Theorem included_set_characterised
    (fs : filesystem) (md : option Z) (il : option (list string)) (gi eg : bool)
    (env : gmap string string) (patterns : list string) (rules : list rule)
    (inc : gset Path) (out : list string) (D : bool) :
  build_patterns fs il gi eg = Ok patterns ->
  _compile_gitignore_rules from_lines patterns = Ok rules ->
  included_set from_lines repr fs md il gi eg env = Ok (inc, out) ->
  forall p : Path,
    p ∈ inc
    <-> p = root_path
        \/ exists q : Path,
             (q = p \/ strict_ancestor p q)
             /\ q <> root_path
             /\ path_exists fs q = true /\ within_depth md q
             /\ fst (is_ignored repr fs rules D q) = false.
Proof.
  intros Hpat Hrules H p.
  destruct (included_set_walk fs md il gi eg env inc out H)
    as (patterns' & rules' & l & Hpat' & Hrules' & Hwalk & ->).
  assert (rules' = rules) as -> by congruence.
  pose proof (kept_paths_members fs md _ rules (debug_enabled env) D l Hwalk) as Hinc0.
  rewrite reconcile_in. split.
  - intros [Hp | (q & Hq & Hsa)].
    + apply Hinc0 in Hp as [-> | (Hne & Hex & Hwd & Hv)]; [now left |].
      right. exists p. auto.
    + apply Hinc0 in Hq as [-> | (Hne & Hex & Hwd & Hv)].
      * destruct (strict_ancestor_nil p Hsa).
      * right. exists q. auto.
  - intros [-> | (q & [-> | Hsa] & Hne & Hex & Hwd & Hv)].
    + left. apply Hinc0. now left.
    + left. apply Hinc0. right. auto.
    + right. exists q. split; [| exact Hsa]. apply Hinc0. right. auto.
Qed.

(** X9. With no pattern at all (no [.gitignore] read, no caller
    patterns, no [.git/] rule) nothing is excluded: the final set is the
    root together with every existing path within the depth bound. *)
Theorem no_patterns_keep_everything
    (fs : filesystem) (md : option Z) (env : gmap string string)
    (inc : gset Path) (out : list string) :
  included_set from_lines repr fs md None false false env = Ok (inc, out) ->
  forall p : Path,
    p ∈ inc <-> p = root_path \/ (path_exists fs p = true /\ within_depth md p).
Proof.
  intros H p. split.
  - intros Hp. destruct (decide (p = root_path)) as [-> | Hne]; [now left |].
    right. exact (included_paths_exist fs md None false false env inc out p H Hp Hne).
  - intros Hp.
    destruct (included_set_walk fs md None false false env inc out H)
      as (patterns & rules & l & Hpat & Hrules & Hwalk & ->).
    injection Hpat as <-. injection Hrules as <-.
    apply reconcile_in. left.
    apply (kept_paths_members fs md _ [] _ false l Hwalk).
    destruct Hp as [-> | [Hex Hwd]]; [now left |].
    destruct (decide (p = root_path)) as [-> | Hne]; [now left | right; auto].
Qed.

End FinalSet.

(** ** Sibling order *)

Lemma key_le_total (a b : bool * string) : key_le a b = true \/ key_le b a = true.
Proof.
  destruct a as [[|] s], b as [[|] t]; unfold key_le; simpl; auto;
    apply String.leb_total.
Qed.

Lemma leb_trans (s t u : string) :
  String.leb s t = true -> String.leb t u = true -> String.leb s u = true.
Proof.
  intros H1 H2. apply Is_true_true. apply Is_true_true in H1, H2.
  exact (transitivity (R := String.le) H1 H2).
Qed.

Lemma key_le_trans (a b c : bool * string) :
  key_le a b = true -> key_le b c = true -> key_le a c = true.
Proof.
  destruct a as [[|] s], b as [[|] t], c as [[|] u]; unfold key_le; simpl;
    try discriminate; try reflexivity; apply leb_trans.
Qed.

Lemma Forall_insert_by_key (fs : filesystem) (P : Path -> Prop) (x : Path) (l : list Path) :
  P x -> Forall P l -> Forall P (insert_by_key fs x l).
Proof.
  intros Hx Hl. induction Hl as [|y l Hy Hl IH]; simpl; [repeat constructor; exact Hx |].
  destruct (key_le _ _); repeat constructor; auto.
Qed.

Lemma insert_by_key_sorted (fs : filesystem) (x : Path) (l : list Path) :
  StronglySorted (key_before fs) l -> StronglySorted (key_before fs) (insert_by_key fs x l).
Proof.
  intros Hl. induction Hl as [|y l Hl IH Hy]; simpl.
  - repeat constructor.
  - destruct (key_le (sort_key fs x) (sort_key fs y)) eqn:Hxy.
    + constructor; [constructor; assumption |]. constructor; [exact Hxy |].
      eapply Forall_impl; [exact Hy |]. intros z Hz.
      exact (key_le_trans _ _ _ Hxy Hz).
    + constructor; [exact IH |]. apply Forall_insert_by_key; [| exact Hy].
      destruct (key_le_total (sort_key fs x) (sort_key fs y)) as [H | H];
        [congruence | exact H].
Qed.

Lemma sorted_strongly_sorted (fs : filesystem) (l : list Path) :
  StronglySorted (key_before fs) (sorted fs l).
Proof.
  induction l as [|x l IH]; simpl; [constructor | now apply insert_by_key_sorted].
Qed.

Lemma filter_strongly_sorted {A : Type} (R : A -> A -> Prop) (f : A -> bool) (l : list A) :
  StronglySorted R l -> StronglySorted R (List.filter f l).
Proof.
  intros Hl. induction Hl as [|y l Hl IH Hy]; simpl; [constructor |].
  destruct (f y); [| exact IH]. constructor; [exact IH |].
  apply List.Forall_forall. intros z Hz. apply List.filter_In in Hz as [Hz _].
  exact (proj1 (List.Forall_forall _ _) Hy z Hz).
Qed.

Lemma filter_insert_by_key_perm (fs : filesystem) (f : Path -> bool) (x : Path)
    (l : list Path) :
  List.filter f (insert_by_key fs x l) ≡ₚ List.filter f (x :: l).
Proof.
  induction l as [|y l IH]; simpl; [reflexivity |].
  destruct (key_le _ _); simpl; [reflexivity |].
  simpl in IH. destruct (f y), (f x); simpl in *; rewrite ?IH; try reflexivity.
  apply perm_swap.
Qed.

Lemma filter_sorted_perm (fs : filesystem) (f : Path -> bool) (l : list Path) :
  List.filter f (sorted fs l) ≡ₚ List.filter f l.
Proof.
  induction l as [|x l IH]; simpl; [reflexivity |].
  rewrite filter_insert_by_key_perm. simpl. destruct (f x); now rewrite IH.
Qed.

Lemma strongly_sorted_lookup {A : Type} (R : A -> A -> Prop) (l : list A) :
  StronglySorted R l ->
  forall (i j : nat) (a b : A),
    (i < j)%nat -> l !! i = Some a -> l !! j = Some b -> R a b.
Proof.
  intros Hl. induction Hl as [|y l Hl IH Hy]; intros i j a b Hij Hi Hj.
  - discriminate Hi.
  - destruct j as [|j]; [lia |]. simpl in Hj. destruct i as [|i]; simpl in Hi.
    + injection Hi as <-. apply (proj1 (List.Forall_forall _ _) Hy).
      apply list_elem_of_In. exact (list_elem_of_lookup_2 _ _ _ Hj).
    + apply (IH i j); [lia | exact Hi | exact Hj].
Qed.


Lemma key_le_refl (a : bool * string) : key_le a a = true.
Proof.
  destruct (key_le_total a a); assumption.
Qed.

Lemma filter_key_insert_by_key (fs : filesystem) (key : bool * string) (x : Path)
    (l : list Path) :
  List.filter (fun y : Path => bool_decide (sort_key fs y = key)) (insert_by_key fs x l)
  = List.filter (fun y : Path => bool_decide (sort_key fs y = key)) (x :: l).
Proof.
  induction l as [|y l IH]; [reflexivity |].
  cbn [insert_by_key]. destruct (key_le (sort_key fs x) (sort_key fs y)) eqn:Hxy;
    [reflexivity |].
  cbn [List.filter] in *. rewrite IH.
  destruct (bool_decide (sort_key fs y = key)) eqn:Hy,
           (bool_decide (sort_key fs x = key)) eqn:Hx; try reflexivity.
  apply bool_decide_eq_true in Hy, Hx.
  rewrite Hx, <- Hy, key_le_refl in Hxy. discriminate Hxy.
Qed.


(** ** Edge and error behaviour of [build_structure_tree] *)

Lemma reconcile_root_only : reconcile ({[root_path]} ∪ ∅) = {[root_path]}.
Proof.
  rewrite (right_id_L ∅ (∪)). unfold reconcile. rewrite elements_singleton. reflexivity.
Qed.

Lemma resolve_paths_silent (repr : string -> string) (fs : filesystem)
    (rules : list rule) (l : list Path) :
  snd (resolve_paths repr fs rules false l) = [].
Proof.
  unfold resolve_paths.
  assert (Hgen : forall acc : gset Path * list string,
            snd acc = [] -> snd (fold_left (resolve_step repr fs rules false) l acc) = []).
  { induction l as [|q l IH]; intros acc Hacc; [exact Hacc |].
    simpl. apply IH. unfold resolve_step.
    destruct (decide (q = root_path)); [exact Hacc |].
    unfold is_ignored. destruct (fold_left _ rules _) as [v h].
    destruct (negb v); simpl; now rewrite Hacc. }
  apply Hgen. reflexivity.
Qed.

Section Edges.

Variable from_lines : string -> outcome PathSpec.
Variable repr : string -> string.

(** X12. With a depth bound of zero or less nothing is traversed: for any
    root, a directory or a file, the result is the root's name alone and
    nothing is printed, whatever the diagnostic switch says. *)
Theorem depth_zero_lists_root_only
    (fs : filesystem) (m : Z) (il : option (list string)) (gi eg : bool)
    (env : gmap string string) (patterns : list string) (rules : list rule) :
  m <= 0 ->
  build_patterns fs il gi eg = Ok patterns ->
  _compile_gitignore_rules from_lines patterns = Ok rules ->
  build_structure_tree from_lines repr fs (Some m) il gi eg env = Ok (root_name fs, []).
Proof.
  intros Hm Hpat Hrules. unfold build_structure_tree, included_set.
  rewrite Hpat. simpl. rewrite Hrules. simpl.
  assert (Hreach : depth_reached (Some m) 0 = true) by (simpl; lia).
  pose proof (node_size_pos (root_node fs)) as Hpos.
  destruct (node_size (root_node fs)) as [|fuel] eqn:Hsize; [lia |].
  cbn [walk]. rewrite Hreach. destruct fuel; cbn [walk bind].
  all: unfold resolve_paths; cbn [fold_left]; unfold resolve_step;
    destruct (decide (root_path = root_path)) as [_ | Hne]; [| contradiction];
    cbn [fst snd]; rewrite reconcile_root_only;
    rewrite rec_depth_reached by exact Hreach; reflexivity.
Qed.


(** X15. Unless [MDTREE_DEBUG] is exactly ["1"], [build_structure_tree]
    prints nothing. *)
Theorem silent_without_switch
    (fs : filesystem) (md : option Z) (il : option (list string)) (gi eg : bool)
    (env : gmap string string) (text : string) (out : list string) :
  env !! "MDTREE_DEBUG" <> Some "1" ->
  build_structure_tree from_lines repr fs md il gi eg env = Ok (text, out) ->
  out = [].
Proof.
  intros Henv H. unfold build_structure_tree in H.
  apply bind_Ok in H as ([inc out'] & Hinc & H).
  apply bind_Ok in H as (lines & _ & H). injection H as _ <-.
  unfold included_set in Hinc.
  apply bind_Ok in Hinc as (patterns & _ & Hinc).
  apply bind_Ok in Hinc as (rules & _ & Hinc).
  apply bind_Ok in Hinc as (all_paths & _ & Hinc). injection Hinc as _ <-.
  replace (debug_enabled env) with false.
  - apply resolve_paths_silent.
  - symmetry. unfold debug_enabled. now apply bool_decide_eq_false.
Qed.

End Edges.

(** ** The diagnostic trace *)

Lemma rule_step_hits_length (d : bool) (rel : string) (acc : bool * list hit) (r : rule) :
  length (snd (rule_step d rel acc r))
  = (length (snd acc) + if rule_hits d rel r then 1 else 0)%nat.
Proof.
  destruct r as [[is_neg spec] pat]. unfold rule_step, rule_hits. simpl.
  destruct (PyStr.endswith "/" _).
  - destruct is_neg; simpl.
    + destruct (d && _); simpl; rewrite ?length_app; simpl; lia.
    + destruct (_ || _); simpl; rewrite ?length_app; simpl; lia.
  - destruct (spec rel); simpl; rewrite ?length_app; simpl; lia.
Qed.

Lemma fold_hits_length (d : bool) (rel : string) (rules : list rule) :
  forall acc : bool * list hit,
    length (snd (fold_left (rule_step d rel) rules acc))
    = (length (snd acc) + length (List.filter (rule_hits d rel) rules))%nat.
Proof.
  induction rules as [|r rules IH]; intros acc; simpl; [lia |].
  rewrite IH, rule_step_hits_length. destruct (rule_hits d rel r); simpl; lia.
Qed.

(** X14. What [is_ignored] prints for a candidate: nothing with the
    switch off; with it on, a header line, then either the one line
    [-> no match] when no rule matches, or one line per matching rule
    followed by a [FINAL] line that names the verdict it returns. *)
Theorem debug_trace_shape (repr : string -> string) (fs : filesystem)
    (rules : list rule) (p : Path) :
  let n := length (List.filter (rule_hits (is_dir fs p) (as_posix_rel p)) rules) in
  snd (is_ignored repr fs rules false p) = []
  /\ length (snd (is_ignored repr fs rules true p))
     = (if Nat.eqb n 0 then 2 else n + 2)%nat
  /\ last (snd (is_ignored repr fs rules true p))
     = Some (if Nat.eqb n 0 then "   -> no match"
             else "   => FINAL: "
                  +:+ (if fst (is_ignored repr fs rules true p)
                       then "IGNORED" else "INCLUDED")).
Proof.
  intros n. unfold is_ignored.
  pose proof (fold_hits_length (is_dir fs p) (as_posix_rel p) rules (false, [])) as Hlen.
  simpl in Hlen. fold n in Hlen.
  destruct (fold_left _ rules _) as [v h]. simpl in Hlen. simpl.
  split; [reflexivity |]. unfold debug_lines.
  destruct h as [|x h]; simpl in Hlen; rewrite <- Hlen; simpl.
  - split; reflexivity.
  - rewrite length_app, length_map. simpl. split; [f_equal; lia |].
    rewrite app_comm_cons. apply last_snoc.
Qed.

(** ** The reconciliation pass on its own *)

(** X16. The reconciliation pass removes nothing and adds exactly the
    strict ancestors of the members it is given, the root among them as
    soon as any member lies below it. *)
Theorem reconcile_adds_ancestors_only (inc : gset Path) :
  inc ⊆ reconcile inc
  /\ (forall x : Path,
        x ∈ reconcile inc
        <-> x ∈ inc \/ exists p : Path, p ∈ inc /\ strict_ancestor x p)
  /\ (forall p : Path, p ∈ inc -> p <> root_path -> root_path ∈ reconcile inc).
Proof.
  split; [| split].
  - intros x Hx. apply reconcile_in. now left.
  - apply reconcile_in.
  - intros p Hp Hne. apply reconcile_in. right. exists p. split; [exact Hp |].
    exists p. split; [exact Hne |]. unfold root_path. now rewrite app_nil_r.
Qed.

(** X17. The reconciliation pass is idempotent, and it leaves a set
    unchanged exactly when the set already holds the strict ancestors of
    all its members. *)
Theorem reconcile_idempotent (inc : gset Path) :
  reconcile (reconcile inc) = reconcile inc
  /\ (reconcile inc = inc
      <-> forall p q : Path, p ∈ inc -> strict_ancestor q p -> q ∈ inc).
Proof.
  split.
  - apply set_eq. intros x. rewrite (reconcile_in (reconcile inc)). split.
    + intros [H | (p & Hp & Hsa)]; [exact H |].
      exact (reconcile_prefix_closed inc p x Hp Hsa).
    + intros H. now left.
  - split.
    + intros Heq p q Hp Hsa. rewrite <- Heq. apply reconcile_in. right. eauto.
    + intros Hclosed. apply set_eq. intros x. rewrite reconcile_in. split.
      * intros [H | (p & Hp & Hsa)]; [exact H | exact (Hclosed p x Hp Hsa)].
      * intros H. now left.
Qed.

(** ** Directory-only rules and the matcher *)

(** X18. [is_ignored] never consults the compiled spec of a rule whose
    core ends with [/]: replacing the specs of such rules by any others
    changes no verdict, so glob characters in a directory-only pattern
    have no effect and the pattern is compared as plain text. *)
Theorem dir_only_rules_ignore_their_spec (repr : string -> string) (fs : filesystem)
    (rules1 rules2 : list rule) (D : bool) (p : Path) :
  Forall2 (fun r1 r2 : rule =>
             rule_is_neg r1 = rule_is_neg r2 /\ snd r1 = snd r2
             /\ (PyStr.endswith "/" (core_of (snd r1)) = true \/ snd (fst r1) = snd (fst r2)))
          rules1 rules2 ->
  fst (is_ignored repr fs rules1 D p) = fst (is_ignored repr fs rules2 D p).
Proof.
  intros H. rewrite !is_ignored_fst.
  assert (Hgen : forall a1 a2 : bool * list hit, fst a1 = fst a2 ->
            fst (fold_left (rule_step (is_dir fs p) (as_posix_rel p)) rules1 a1)
            = fst (fold_left (rule_step (is_dir fs p) (as_posix_rel p)) rules2 a2)).
  { induction H as [|r1 r2 l1 l2 Hr _ IH]; intros a1 a2 Ha; [exact Ha |].
    simpl. apply IH. rewrite !rule_step_verdict, Ha.
    destruct r1 as [[n1 s1] p1], r2 as [[n2 s2] p2].
    unfold rule_is_neg, rule_hits, core_of in *. simpl in *.
    destruct Hr as (-> & -> & [Hslash | ->]); [| reflexivity].
    rewrite Hslash. reflexivity. }
  apply Hgen. reflexivity.
Qed.

(** ** The two copies of [validate_and_convert_path] *)

(** X19. The copy of [validate_and_convert_path] in [treebuilder.py] is
    the copy in [__main__.py] followed by [resolve()]: both accept and
    reject the same arguments, with the same error. *)
Theorem validate_is_main_validate_then_resolve {OsPath : Type}
    (path_of_str : string -> OsPath) (os_exists : OsPath -> bool)
    (os_resolve : OsPath -> OsPath) (s : pyobj OsPath) :
  validate_and_convert_path path_of_str os_exists os_resolve s
  = let* p := Main.validate_and_convert_path path_of_str os_exists s in
    Ok (os_resolve p).
Proof.
  destruct s as [x | q | t]; simpl; [destruct (os_exists _) .. |]; reflexivity.
Qed.

(** ** The earlier builder of [__main__.py] *)

Lemma In_insert_by_name (fs : filesystem) (x y : Path) (l : list Path) :
  In y (Main.insert_by_name fs x l) <-> y = x \/ In y l.
Proof.
  induction l as [|z l IH]; simpl; [intuition auto |].
  destruct (String.leb _ _); simpl; [intuition auto | rewrite IH; intuition auto].
Qed.

Lemma In_sorted_paths (fs : filesystem) (y : Path) (l : list Path) :
  In y (Main.sorted_paths fs l) <-> In y l.
Proof.
  induction l as [|x l IH]; simpl; [tauto |].
  rewrite In_insert_by_name, IH. intuition auto.
Qed.

Lemma sorted_paths_length (fs : filesystem) (l : list Path) :
  length (Main.sorted_paths fs l) = length l.
Proof.
  induction l as [|x l IH]; simpl; [reflexivity |]. rewrite <- IH.
  generalize (Main.sorted_paths fs l). intros s.
  induction s as [|y s IHs]; simpl; [reflexivity |].
  destruct (String.leb _ _); simpl; [reflexivity | now rewrite IHs].
Qed.

Lemma search_loop_returns (fs : filesystem)
    (descend : Path -> string -> outcome (list string)) (prefix : string) (n : nat) :
  forall (l : list Path) (i : Z),
    (forall (ch : Path) (pre : string), In ch l -> is_dir fs ch = true ->
       exists ls : list string, descend ch pre = Ok ls) ->
    exists lines : list string,
      Main.search_loop fs descend prefix n i l = Ok lines /\ (length l <= length lines)%nat.
Proof.
  induction l as [|c l IH]; intros i Hd; simpl; [exists []; auto |].
  destruct (IH (i + 1)) as (rest & -> & Hlen).
  { intros ch pre Hch. apply Hd. now right. }
  destruct (is_dir fs c) eqn:Hc.
  - destruct (Hd c (prefix +:+ Main.extentions (i + 1 =? Z.of_nat n))
                (or_introl eq_refl) Hc) as [ls ->].
    simpl. eexists. split; [reflexivity |]. simpl. rewrite length_app. lia.
  - simpl. eexists. split; [reflexivity |]. simpl. lia.
Qed.

Lemma search_directories_returns (fs : filesystem) (md : option Z) (fuel : nat) :
  forall (path : Path) (prefix : string) (depth : Z) (n : node),
    lookup_path fs path = Some n -> (node_size n <= fuel)%nat ->
    exists lines : list string,
      Main.search_directories fs md fuel path prefix depth = Ok lines.
Proof.
  induction fuel as [|fuel IH]; intros path prefix depth n Hn Hsz.
  - pose proof (node_size_pos n). lia.
  - cbn [Main.search_directories].
    destruct (Main.depth_exceeded md (depth + 1)); [eauto |].
    destruct (search_loop_returns fs
                (fun child pre => Main.search_directories fs md fuel child pre (depth + 1))
                prefix (length (Main.sorted_paths fs (Main.glob_star fs path)))
                (Main.sorted_paths fs (Main.glob_star fs path)) 0) as (lines & Hl & _);
      [| eauto].
    intros ch pre Hch Hdir. apply In_sorted_paths in Hch.
    unfold Main.glob_star in Hch. rewrite Hn in Hch.
    destruct n as [t | es]; [destruct Hch |].
    apply in_map_iff in Hch as (e & <- & He).
    unfold is_dir in Hdir. rewrite (lookup_child fs path es (fst e) Hn) in Hdir.
    destruct (find_entry (fst e) es) as [x |] eqn:Hx; [| discriminate Hdir].
    apply (IH _ _ _ x).
    + rewrite (lookup_child fs path es (fst e) Hn). exact Hx.
    + apply find_entry_In in Hx. pose proof (node_size_entry es _ Hx) as Hle.
      rewrite node_size_Dir in Hsz. simpl in Hle. lia.
Qed.


(** ** The rendered lines and the final set *)

Lemma In_rec_loop_entries (fs : filesystem) (descend : Path -> list Path)
    (l : list Path) (p : Path) :
  In p (rec_loop_entries fs descend l)
  <-> exists ch : Path,
        In ch l /\ (p = ch \/ (is_dir fs ch = true /\ In p (descend ch))).
Proof.
  induction l as [|c l IH]; simpl.
  - split; [contradiction | intros (ch & [] & _)].
  - rewrite in_app_iff, IH. split.
    + intros [<- | [Hp | (ch & Hch & Hp)]].
      * exists c. auto.
      * exists c. split; [now left |]. right.
        destruct (is_dir fs c); [auto | destruct Hp].
      * exists ch. auto.
    + intros (ch & [<- | Hch] & [-> | [Hd Hp]]); auto.
      * right. left. now rewrite Hd.
      * right. right. exists ch. auto.
      * right. right. exists ch. auto.
Qed.

Lemma rec_loop_lines_entries (fs : filesystem)
    (descend : Path -> string -> outcome (list string)) (descendE : Path -> list Path)
    (prefix : string) (n : nat) :
  (forall (ch : Path) (pre : string) (ls : list string),
      descend ch pre = Ok ls -> Forall2 (line_of fs) ls (descendE ch)) ->
  forall (l : list Path) (i : Z) (lines : list string),
    rec_loop fs descend prefix n i l = Ok lines ->
    Forall2 (line_of fs) lines (rec_loop_entries fs descendE l).
Proof.
  intros Hd. induction l as [|c l IH]; intros i lines H; simpl in H.
  - injection H as <-. constructor.
  - apply bind_Ok in H as (below & Hbelow & H).
    apply bind_Ok in H as (rest & Hrest & H). injection H as <-.
    simpl. constructor; [unfold line_of; eauto |].
    apply Forall2_app; [| exact (IH _ _ Hrest)].
    destruct (is_dir fs c); [exact (Hd _ _ _ Hbelow) |].
    injection Hbelow as <-. constructor.
Qed.

Lemma rec_lines_entries (fs : filesystem) (md : option Z) (inc : gset Path) (fuel : nat) :
  forall (path : Path) (prefix : string) (depth : Z) (lines : list string),
    rec fs md inc fuel path prefix depth = Ok lines ->
    Forall2 (line_of fs) lines (rec_entries fs md inc fuel path depth).
Proof.
  induction fuel as [|fuel IH]; intros path prefix depth lines H; simpl in *;
    destruct (depth_reached md depth); try discriminate H;
    try (injection H as <-; constructor).
  apply bind_Ok in H as (kids & Hkids & H). rewrite Hkids.
  eapply rec_loop_lines_entries; [| exact H].
  intros ch pre ls. apply IH.
Qed.

Lemma strict_ancestor_child (n : string) (path : Path) : strict_ancestor path (n :: path).
Proof. exists [n]. split; [discriminate | reflexivity]. Qed.

Lemma strict_ancestor_longer (q p : Path) :
  strict_ancestor q p -> (length q < length p)%nat.
Proof.
  intros (k & Hk & ->). rewrite length_app. destruct k; [contradiction | simpl; lia].
Qed.

Lemma list_children_In (fs : filesystem) (inc : gset Path) (path : Path)
    (es : list (string * node)) (c : Path) :
  lookup_path fs path = Some (Dir es) ->
  forall kids : list Path,
    list_children fs inc path = Ok kids ->
    (In c kids <-> c ∈ inc /\ exists e : string * node, In e es /\ c = fst e :: path).
Proof.
  intros Hl kids H. unfold list_children, iterdir in H. rewrite Hl in H.
  simpl in H. injection H as <-.
  rewrite List.filter_In, <- list_elem_of_In, elem_of_sorted, list_elem_of_In, in_map_iff.
  rewrite bool_decide_eq_true. split.
  - intros [(e & <- & He) Hc]. eauto.
  - intros [Hc (e & He & ->)]. eauto.
Qed.

Section Rendering.

Variable fs : filesystem.
Variable md : option Z.
Variable inc : gset Path.

Lemma rec_entries_below (fuel : nat) :
  forall (path : Path) (depth : Z) (p : Path),
    In p (rec_entries fs md inc fuel path depth) -> strict_ancestor path p.
Proof.
  induction fuel as [|fuel IH]; intros path depth p Hp; simpl in Hp;
    destruct (depth_reached md depth); try destruct Hp.
  destruct (list_children fs inc path) as [kids | |] eqn:Hkids; try destruct Hp.
  apply In_rec_loop_entries in Hp as (ch & Hch & Hp).
  assert (Hsa : strict_ancestor path ch).
  { unfold list_children, iterdir in Hkids.
    destruct (lookup_path fs path) as [[t | es] |]; try discriminate Hkids.
    simpl in Hkids. injection Hkids as <-.
    apply List.filter_In in Hch as [Hch _].
    apply list_elem_of_In, elem_of_sorted, list_elem_of_In, in_map_iff in Hch
      as (e & <- & _).
    apply strict_ancestor_child. }
  destruct Hp as [-> | [_ Hp]]; [exact Hsa |].
  exact (strict_ancestor_trans _ _ _ Hsa (IH _ _ _ Hp)).
Qed.

Hypothesis inc_exists :
  forall p : Path, p ∈ inc -> p <> root_path ->
    path_exists fs p = true /\ within_depth md p.
Hypothesis inc_closed :
  forall p q : Path, p ∈ inc -> strict_ancestor q p -> q ∈ inc.

Lemma rec_entries_spec (fuel : nat) :
  forall (path : Path) (depth : Z) (es : list (string * node)),
    lookup_path fs path = Some (Dir es) ->
    (node_size (Dir es) <= fuel)%nat ->
    depth = Z.of_nat (length path) ->
    forall p : Path,
      In p (rec_entries fs md inc fuel path depth)
      <-> p ∈ inc /\ strict_ancestor path p.
Proof.
  induction fuel as [|fuel IH]; intros path depth es Hl Hsz Hdepth p.
  { rewrite node_size_Dir in Hsz. lia. }
  cbn [rec_entries].
  destruct (depth_reached md depth) eqn:Hreach.
  - split; [contradiction |]. intros [Hp Hsa]. exfalso.
    pose proof (strict_ancestor_longer _ _ Hsa) as Hlen.
    destruct (inc_exists p Hp) as [_ Hwd].
    { intros ->. simpl in Hlen. lia. }
    destruct md as [m |]; [| discriminate Hreach]. simpl in *. lia.
  - destruct (list_children fs inc path) as [kids | e |] eqn:Hkids.
    2, 3: unfold list_children, iterdir in Hkids; rewrite Hl in Hkids; discriminate Hkids.
    pose proof (fun c => list_children_In fs inc path es c Hl kids Hkids) as Hkid.
    assert (Hsub : forall ch : Path, In ch kids -> is_dir fs ch = true ->
              exists es' : list (string * node),
                lookup_path fs ch = Some (Dir es')
                /\ (node_size (Dir es') <= fuel)%nat
                /\ depth + 1 = Z.of_nat (length ch)).
    { intros ch Hch Hdir. apply Hkid in Hch as [_ (e & He & ->)].
      apply is_dir_lookup in Hdir as [es' Hes']. exists es'.
      split; [exact Hes' |]. split; [| simpl; lia].
      rewrite (lookup_child fs path es (fst e) Hl) in Hes'.
      apply find_entry_In in Hes'. pose proof (node_size_entry es _ Hes') as Hle.
      rewrite (node_size_Dir es) in Hsz. cbn [snd] in Hle. lia. }
    rewrite In_rec_loop_entries. split.
    + intros (ch & Hch & [-> | [Hdir Hp]]).
      * apply Hkid in Hch as [Hc (e & _ & ->)]. split; [exact Hc |].
        apply strict_ancestor_child.
      * destruct (Hsub ch Hch Hdir) as (es' & Hes' & Hsz' & Hd').
        apply (IH ch (depth + 1) es' Hes' Hsz' Hd') in Hp as [Hp Hsa].
        split; [exact Hp |]. apply Hkid in Hch as [_ (e & _ & ->)].
        exact (strict_ancestor_trans _ _ _ (strict_ancestor_child _ _) Hsa).
    + intros [Hp (k & Hk & ->)].
      destruct (exists_last Hk) as (k' & n & ->).
      rewrite <- app_assoc in Hp |- *. cbn [app] in Hp |- *.
      destruct (inc_exists _ Hp) as [Hex _].
      { intros H. apply app_eq_nil in H as [_ H]. discriminate H. }
      apply path_exists_lookup in Hex as [x Hx].
      assert (Hc : In (n :: path) kids /\ (k' <> [] -> is_dir fs (n :: path) = true)).
      { destruct k' as [|m k'].
        - split; [| intros H; now contradiction H]. apply Hkid. split; [exact Hp |].
          simpl in Hx. rewrite (lookup_child fs path es n Hl) in Hx.
          apply find_entry_In in Hx. exists (n, x). auto.
        - destruct (lookup_app_inv_dir fs (m :: k') (n :: path) x) as [es' Hes'];
            [discriminate | exact Hx |].
          split; [| intros _; unfold is_dir; now rewrite Hes'].
          apply Hkid. split.
          + apply (inc_closed _ _ Hp). exists (m :: k'). split; [discriminate | reflexivity].
          + rewrite (lookup_child fs path es n Hl) in Hes'.
            apply find_entry_In in Hes'. exists (n, Dir es'). auto. }
      destruct Hc as [Hc Hdir]. exists (n :: path). split; [exact Hc |].
      destruct k' as [|m k']; [now left |]. right.
      specialize (Hdir ltac:(discriminate)). split; [exact Hdir |].
      destruct (Hsub _ Hc Hdir) as (es' & Hes' & Hsz' & Hd').
      apply (IH (n :: path) (depth + 1) es' Hes' Hsz' Hd'). split; [exact Hp |].
      exists (m :: k'). split; [discriminate | reflexivity].
Qed.

End Rendering.

Lemma sibling_names (k k' : list string) (n n' : string) (path : Path) :
  k ++ n :: path = k' ++ n' :: path -> n = n'.
Proof.
  intros H.
  change (k ++ [n] ++ path = k' ++ [n'] ++ path) in H.
  rewrite !app_assoc in H. apply app_inv_tail in H.
  apply app_inj_tail in H as [_ H]. exact H.
Qed.

Lemma insert_by_key_perm (fs : filesystem) (x : Path) (l : list Path) :
  insert_by_key fs x l ≡ₚ x :: l.
Proof.
  induction l as [|y l IH]; simpl; [reflexivity |].
  destruct (key_le _ _); [reflexivity |]. rewrite IH. apply perm_swap.
Qed.

Lemma sorted_perm (fs : filesystem) (l : list Path) : sorted fs l ≡ₚ l.
Proof.
  induction l as [|x l IH]; simpl; [reflexivity |].
  now rewrite insert_by_key_perm, IH.
Qed.

Lemma NoDup_children (path : Path) (es : list (string * node)) :
  NoDup (map fst es) -> NoDup (map (fun e : string * node => fst e :: path) es).
Proof.
  induction es as [|e es IH]; simpl; intros H; [constructor |].
  apply NoDup_cons in H as [Hn H]. apply NoDup_cons. split; [| exact (IH H)].
  intros Hin. apply Hn. apply list_elem_of_In, in_map_iff in Hin as (e' & [= He'] & Hin).
  rewrite <- He'. apply list_elem_of_In, in_map. exact Hin.
Qed.

Lemma NoDup_List_filter {A : Type} (f : A -> bool) (l : list A) :
  NoDup l -> NoDup (List.filter f l).
Proof.
  induction l as [|x l IH]; simpl; intros H; [constructor |].
  apply NoDup_cons in H as [Hx H]. destruct (f x); [| exact (IH H)].
  apply NoDup_cons. split; [| exact (IH H)].
  intros Hin. apply Hx. apply list_elem_of_In, List.filter_In in Hin as [Hin _].
  apply list_elem_of_In. exact Hin.
Qed.

Lemma NoDup_list_children (fs : filesystem) (inc : gset Path) (path : Path)
    (es : list (string * node)) (kids : list Path) :
  lookup_path fs path = Some (Dir es) -> NoDup (map fst es) ->
  list_children fs inc path = Ok kids -> NoDup kids.
Proof.
  intros Hl Hnd H. unfold list_children, iterdir in H. rewrite Hl in H.
  simpl in H. injection H as <-.
  apply NoDup_List_filter. rewrite sorted_perm. exact (NoDup_children path es Hnd).
Qed.

Lemma rec_loop_entries_NoDup (fs : filesystem) (descend : Path -> list Path)
    (path : Path) (l : list Path) :
  NoDup l ->
  (forall ch : Path, In ch l -> exists n : string, ch = n :: path) ->
  (forall ch : Path, In ch l -> is_dir fs ch = true ->
     NoDup (descend ch) /\ forall p : Path, In p (descend ch) -> strict_ancestor ch p) ->
  NoDup (rec_loop_entries fs descend l).
Proof.
  induction l as [|c l IH]; intros Hnd Hsib Hd; simpl; [constructor |].
  apply NoDup_cons in Hnd as [Hc Hnd].
  assert (IH' : NoDup (rec_loop_entries fs descend l)).
  { apply IH; [exact Hnd | |]; intros ch Hch; [apply Hsib | apply Hd]; now right. }
  destruct (Hsib c (or_introl eq_refl)) as [n ->].
  set (below := if is_dir fs (n :: path) then descend (n :: path) else []).
  assert (Hbelow : NoDup below
                   /\ forall p : Path, In p below -> strict_ancestor (n :: path) p).
  { unfold below. destruct (is_dir fs (n :: path)) eqn:Hdir.
    - apply Hd; [now left | exact Hdir].
    - split; [constructor | contradiction]. }
  destruct Hbelow as [Hbnd Hbsa].
  assert (Hrest : forall p : Path, In p (rec_loop_entries fs descend l) ->
            exists (k : list string) (n' : string),
              p = k ++ n' :: path /\ In (n' :: path) l).
  { intros p Hp. apply In_rec_loop_entries in Hp as (ch & Hch & Hp).
    destruct (Hsib ch (or_intror Hch)) as [n' ->].
    destruct Hp as [-> | [Hdir Hp]]; [exists [], n'; auto |].
    destruct (Hd _ (or_intror Hch) Hdir) as [_ Hsa].
    destruct (Hsa p Hp) as (k & _ & ->). eauto. }
  apply NoDup_cons. split.
  - rewrite list_elem_of_In, in_app_iff. intros [Hin | Hin].
    + apply Hbsa, strict_ancestor_longer in Hin. lia.
    + destruct (Hrest _ Hin) as (k & n' & Heq & Hn').
      apply (sibling_names [] k n n' path) in Heq. subst n'.
      apply Hc. apply list_elem_of_In. exact Hn'.
  - apply NoDup_app. split; [exact Hbnd |]. split; [| exact IH'].
    intros p Hp Hp'. apply list_elem_of_In in Hp, Hp'.
    destruct (Hbsa p Hp) as (k & _ & ->).
    destruct (Hrest _ Hp') as (k' & n' & Heq & Hn').
    apply sibling_names in Heq. subst n'.
    apply Hc. apply list_elem_of_In. exact Hn'.
Qed.

Lemma rec_entries_NoDup (fs : filesystem) (md : option Z) (inc : gset Path) (fuel : nat) :
  forall (path : Path) (depth : Z) (n : node),
    lookup_path fs path = Some n -> wf_node n ->
    NoDup (rec_entries fs md inc fuel path depth).
Proof.
  induction fuel as [|fuel IH]; intros path depth n Hn Hwf; simpl;
    destruct (depth_reached md depth); try constructor.
  destruct (list_children fs inc path) as [kids | |] eqn:Hkids; try constructor.
  destruct n as [t | es].
  { unfold list_children, iterdir in Hkids. rewrite Hn in Hkids. discriminate Hkids. }
  pose proof (fun c => list_children_In fs inc path es c Hn kids Hkids) as Hkid.
  apply (rec_loop_entries_NoDup fs _ path).
  - exact (NoDup_list_children fs inc path es kids Hn (proj1 Hwf) Hkids).
  - intros ch Hch. apply Hkid in Hch as [_ (e & _ & ->)]. eauto.
  - intros ch Hch Hdir. split; [| intros p; apply rec_entries_below].
    apply Hkid in Hch as [_ (e & He & ->)].
    apply is_dir_lookup in Hdir as [es' Hes'].
    apply (IH _ _ (Dir es') Hes').
    rewrite (lookup_child fs path es (fst e) Hn) in Hes'.
    apply find_entry_In in Hes'. exact (wf_node_entry es _ Hwf Hes').
Qed.

Section RenderedSet.

Variable from_lines : string -> outcome PathSpec.
Variable repr : string -> string.

(** X21. The rendered text lists the final set and nothing else: on a
    well-formed tree whose root is a directory, the lines after the root's
    name stand, in order, for entries that are pairwise different and are
    exactly the members of the final set [included] other than the root;
    each line ends with a connector and the name of its entry. *)
Theorem rendering_lists_final_set
    (fs : filesystem) (md : option Z) (il : option (list string)) (gi eg : bool)
    (env : gmap string string) (es : list (string * node))
    (patterns : list string) (rules : list rule) :
  root_node fs = Dir es -> wf_node (Dir es) ->
  build_patterns fs il gi eg = Ok patterns ->
  _compile_gitignore_rules from_lines patterns = Ok rules ->
  exists (inc : gset Path) (out lines : list string) (entries : list Path),
    included_set from_lines repr fs md il gi eg env = Ok (inc, out)
    /\ build_structure_tree from_lines repr fs md il gi eg env
       = Ok (String.concat PyStr.newline (root_name fs :: lines), out)
    /\ Forall2 (line_of fs) lines entries
    /\ NoDup entries
    /\ forall p : Path, In p entries <-> p ∈ inc /\ p <> root_path.
Proof.
  intros Hroot Hwf Hpat Hrules.
  destruct (included_set_returns from_lines repr fs md il gi eg env es patterns rules
              Hroot Hwf Hpat Hrules) as (inc & out & Hinc).
  assert (Hl : lookup_path fs root_path = Some (Dir es)).
  { unfold lookup_path. simpl. now rewrite Hroot. }
  pose proof (rec_terminates fs md inc (node_size (root_node fs)) root_path "" 0
                (root_node fs) eq_refl (le_n _)) as Hfuel.
  pose proof (rec_never_raises fs md inc (node_size (root_node fs)) root_path "" 0)
    as Hraise.
  destruct (rec fs md inc (node_size (root_node fs)) root_path "" 0)
    as [lines | e |] eqn:Hrec.
  2:{ exfalso. apply (Hraise e); [| reflexivity]. unfold is_dir. now rewrite Hl. }
  2:{ contradiction. }
  exists inc, out, lines, (rec_entries fs md inc (node_size (root_node fs)) root_path 0).
  split; [exact Hinc |]. split; [| split; [| split]].
  - unfold build_structure_tree. rewrite Hinc. simpl. rewrite Hrec. reflexivity.
  - exact (rec_lines_entries fs md inc _ _ _ _ _ Hrec).
  - apply (rec_entries_NoDup fs md inc _ root_path 0 (Dir es) Hl Hwf).
  - intros p.
    rewrite (rec_entries_spec fs md inc
               (fun q => included_paths_exist from_lines repr fs md il gi eg env inc out q Hinc)
               (proj2 (included_set_closed from_lines repr fs md il gi eg env inc out Hinc))
               (node_size (root_node fs)) root_path 0 es Hl).
    + split; intros [Hp Hq]; (split; [exact Hp |]).
      * intros ->. destruct (strict_ancestor_nil _ Hq).
      * exists p. split; [exact Hq |]. unfold root_path. now rewrite app_nil_r.
    + rewrite Hroot. lia.
    + reflexivity.
Qed.

End RenderedSet.

(** ** The further properties at work on concrete inputs *)

Lemma compile_keeps_order_witness :
  exists rules : list rule,
    _compile_gitignore_rules Wildmatch.from_lines [""; "*.log"; "!"; "!important.log"]
    = Ok rules
    /\ map snd rules = ["*.log"; "!important.log"].
Proof.
  exists [(false, Wildmatch.match_file "*.log", "*.log");
          (true, Wildmatch.match_file "important.log", "!important.log")].
  split; [reflexivity |].
  exact (proj1 (compile_keeps_order Wildmatch.from_lines
                  [""; "*.log"; "!"; "!important.log"] _ eq_refl)).
Defined.

Lemma compile_error_behaviour_witness :
  exists (pre post : list string) (pat : string),
    ["a"; "bad"; "c"] = pre ++ pat :: post
    /\ has_core pat = true
    /\ reject_line "bad" (core_of pat) = Raise (PatternError "bad")
    /\ exists rules : list rule, _compile_gitignore_rules (reject_line "bad") pre = Ok rules.
Proof.
  exact (proj2 (compile_error_behaviour (reject_line "bad") ["a"; "bad"; "c"])
           (PatternError "bad") eq_refl).
Defined.


Lemma git_dir_always_excluded_witness :
  fst (is_ignored Wildmatch.repr demo_fs
         [(true, Wildmatch.match_file ".git/", "!.git/");
          (true, Wildmatch.match_file ".git/HEAD", "!.git/HEAD");
          (false, Wildmatch.match_file ".git/", ".git/")]
         false ["HEAD"; ".git"]) = true.
Proof.
  apply (git_dir_always_excluded Wildmatch.from_lines Wildmatch.repr demo_fs
           (Some ["!.git/"; "!.git/HEAD"]) false
           ["!.git/"; "!.git/HEAD"; ".git/"] _ false ["HEAD"; ".git"] eq_refl eq_refl).
  exists ["HEAD"]. reflexivity.
Defined.

Lemma git_dir_never_included_witness :
  exists (inc : gset Path) (out : list string),
    included_set Wildmatch.from_lines Wildmatch.repr demo_fs None
      (Some ["!.git/"; "!.git/HEAD"]) false true ∅ = Ok (inc, out)
    /\ ["HEAD"; ".git"] ∉ inc.
Proof.
  destruct (included_set_returns Wildmatch.from_lines Wildmatch.repr demo_fs None
              (Some ["!.git/"; "!.git/HEAD"]) false true ∅ _
              ["!.git/"; "!.git/HEAD"; ".git/"]
              [(true, Wildmatch.match_file ".git/", "!.git/");
               (true, Wildmatch.match_file ".git/HEAD", "!.git/HEAD");
               (false, Wildmatch.match_file ".git/", ".git/")]
              eq_refl demo_fs_wf eq_refl eq_refl) as (inc & out & E).
  exists inc, out. split; [exact E |].
  apply (git_dir_never_included Wildmatch.from_lines Wildmatch.repr demo_fs None
           (Some ["!.git/"; "!.git/HEAD"]) false ∅ inc out _ E).
  exists ["HEAD"]. reflexivity.
Defined.

Lemma walk_enumerates_exactly_witness :
  exists l : list Path,
    walk demo_fs (Some 1) (node_size (root_node demo_fs)) [(root_path, 0)] [root_path] = Ok l
    /\ In [".git"] l /\ ~ In ["HEAD"; ".git"] l.
Proof.
  destruct (walk_enumerates_exactly demo_fs (Some 1)) as [Hmem Hret].
  destruct (Hret _ eq_refl demo_fs_wf) as [l E].
  exists l. split; [exact E |]. split.
  - apply (Hmem l E). right. split; [reflexivity | simpl; lia].
  - intros H. apply (Hmem l E) in H as [H | [_ H]]; [discriminate H | simpl in H; lia].
Defined.

Lemma included_set_characterised_witness :
  exists (inc : gset Path) (out : list string),
    included_set Wildmatch.from_lines Wildmatch.repr demo_fs None
      (Some ["build/"; "!build/keep/a.txt"]) false false ∅ = Ok (inc, out)
    /\ ["build"] ∈ inc.
Proof.
  destruct (included_set_returns Wildmatch.from_lines Wildmatch.repr demo_fs None
              (Some ["build/"; "!build/keep/a.txt"]) false false ∅ _
              ["build/"; "!build/keep/a.txt"]
              [(false, Wildmatch.match_file "build/", "build/");
               (true, Wildmatch.match_file "build/keep/a.txt", "!build/keep/a.txt")]
              eq_refl demo_fs_wf eq_refl eq_refl) as (inc & out & E).
  exists inc, out. split; [exact E |].
  apply (included_set_characterised Wildmatch.from_lines Wildmatch.repr demo_fs None
           (Some ["build/"; "!build/keep/a.txt"]) false false ∅
           ["build/"; "!build/keep/a.txt"] _ inc out false eq_refl eq_refl E).
  right. exists ["a.txt"; "keep"; "build"]. split.
  - right. exists ["a.txt"; "keep"]. split; [discriminate | reflexivity].
  - split; [discriminate |]. split; [reflexivity |]. split; [exact I | reflexivity].
Defined.

Lemma no_patterns_keep_everything_witness :
  exists (inc : gset Path) (out : list string),
    included_set Wildmatch.from_lines Wildmatch.repr demo_fs (Some 1) None false false ∅
    = Ok (inc, out)
    /\ [".git"] ∈ inc /\ ["HEAD"; ".git"] ∉ inc.
Proof.
  destruct (included_set_returns Wildmatch.from_lines Wildmatch.repr demo_fs (Some 1)
              None false false ∅ _ [] [] eq_refl demo_fs_wf eq_refl eq_refl)
    as (inc & out & E).
  exists inc, out. split; [exact E |].
  pose proof (no_patterns_keep_everything Wildmatch.from_lines Wildmatch.repr demo_fs
                (Some 1) ∅ inc out E) as H.
  split.
  - apply H. right. split; [reflexivity | simpl; lia].
  - intros Hin. apply H in Hin as [Hin | [_ Hin]]; [discriminate Hin | simpl in Hin; lia].
Defined.


Lemma depth_zero_lists_root_only_witness :
  build_structure_tree Wildmatch.from_lines Wildmatch.repr file_root_fs (Some 0)
    (Some ["*.log"]) true true debug_on = Ok ("notes.txt", []).
Proof.
  exact (depth_zero_lists_root_only Wildmatch.from_lines Wildmatch.repr file_root_fs 0
           (Some ["*.log"]) true true debug_on ["*.log"; ".git/"] _
           (Z.le_refl 0) eq_refl eq_refl).
Defined.


Lemma silent_without_switch_witness :
  exists text : string,
    build_structure_tree Wildmatch.from_lines Wildmatch.repr demo_fs None None
      false true {["MDTREE_DEBUG" := "true"]} = Ok (text, []).
Proof.
  destruct (build_structure_tree_returns Wildmatch.from_lines Wildmatch.repr demo_fs None
              None false true {["MDTREE_DEBUG" := "true"]} _ [".git/"]
              [(false, Wildmatch.match_file ".git/", ".git/")]
              eq_refl demo_fs_wf eq_refl eq_refl) as (text & out & E).
  exists text. rewrite E. f_equal. f_equal.
  apply (silent_without_switch Wildmatch.from_lines Wildmatch.repr demo_fs None None
           false true {["MDTREE_DEBUG" := "true"]} text out); [| exact E].
  rewrite lookup_singleton_eq. discriminate.
Defined.

Lemma reconcile_adds_ancestors_only_witness :
  root_path ∈ reconcile {[ ["a.txt"; "keep"; "build"] ]}.
Proof.
  apply (proj2 (proj2 (reconcile_adds_ancestors_only {[ ["a.txt"; "keep"; "build"] ]}))
           ["a.txt"; "keep"; "build"]).
  - apply elem_of_singleton. reflexivity.
  - discriminate.
Defined.

Lemma reconcile_idempotent_witness : reconcile {[ root_path ]} = {[ root_path ]}.
Proof.
  apply (proj2 (reconcile_idempotent {[ root_path ]})).
  intros p q Hp Hsa. apply elem_of_singleton in Hp. subst p.
  destruct (strict_ancestor_nil q Hsa).
Defined.

Lemma dir_only_rules_ignore_their_spec_witness :
  fst (is_ignored Wildmatch.repr demo_fs
         [(false, Wildmatch.match_file "b*/", "b*/")] false ["build"])
  = fst (is_ignored Wildmatch.repr demo_fs
           [(false, fun _ : string => true, "b*/")] false ["build"]).
Proof.
  apply (dir_only_rules_ignore_their_spec Wildmatch.repr demo_fs).
  constructor; [| constructor]. split; [reflexivity |]. split; [reflexivity |].
  left. reflexivity.
Defined.


Lemma rendering_lists_final_set_witness :
  exists (inc : gset Path) (out lines : list string) (entries : list Path),
    included_set Wildmatch.from_lines Wildmatch.repr demo_fs None
      (Some ["build/"; "!build/keep/a.txt"]) false true ∅ = Ok (inc, out)
    /\ build_structure_tree Wildmatch.from_lines Wildmatch.repr demo_fs None
         (Some ["build/"; "!build/keep/a.txt"]) false true ∅
       = Ok (String.concat PyStr.newline (root_name demo_fs :: lines), out)
    /\ Forall2 (line_of demo_fs) lines entries
    /\ NoDup entries
    /\ forall p : Path, In p entries <-> p ∈ inc /\ p <> root_path.
Proof.
  exact (rendering_lists_final_set Wildmatch.from_lines Wildmatch.repr demo_fs None
           (Some ["build/"; "!build/keep/a.txt"]) false true ∅ _
           ["build/"; "!build/keep/a.txt"; ".git/"]
           [(false, Wildmatch.match_file "build/", "build/");
            (true, Wildmatch.match_file "build/keep/a.txt", "!build/keep/a.txt");
            (false, Wildmatch.match_file ".git/", ".git/")]
           eq_refl demo_fs_wf eq_refl eq_refl).
Defined.

Example demo_main_builder_text :
  Main.build_structure_tree file_build_fs "." (Some 1)
  = Ok (String.concat PyStr.newline ["."; "├── README.md"; "└── build"]).
Proof. vm_compute. reflexivity. Qed.

Example demo_dir_rule_is_literal :
  fst (is_ignored Wildmatch.repr demo_fs
         [(false, Wildmatch.match_file "b*/", "b*/")] false ["build"]) = false.
Proof. reflexivity. Qed.
